(** * highz_exp.reflection_proc: a shallow embedding and its properties

    The module [src/highz_exp/reflection_proc.py] is a collection of
    laboratory helpers around one-port scattering data: a loader, the
    cable/LNA reflection combiner, a dB-to-power converter, two
    least-squares fitters and three plotting routines.

    Modelling choices.
    - Numbers.  numpy's float64 and complex128 are modelled by the real
      numbers of the Standard Library and by pairs of reals: the
      statements below are about the exact arithmetic that the code
      writes down, not about rounding, signed zeros, infinities or NaN.
      The one place where the float range decides the control flow is
      the power converter on a Python number, where [**] raises beyond
      the largest float; that bound is modelled.
    - Objects.  A [skrf.Network] is a Python object handled by
      reference.  The embedding keeps a heap of networks and every
      routine is a computation over a [world] (heap, file system,
      console and figure trace) that may raise.
    - Libraries.  numpy broadcasting, [os.path.basename]/[join] (POSIX),
      [str.replace] and the ordered [dict] are modelled as far as the
      module uses them; [scipy.optimize.curve_fit], the colour cycle of
      matplotlib and [numpy.angle] are parameters.  Cosmetic matplotlib
      calls (grid, legend, axis labels, titles, layout) are left out of
      the trace, and with them the arguments that only feed those calls
      ([ylabel], [title], [legend_loc]).
    - Files.  The file system is a dict from absolute, normalised paths
      to nodes; a path handed to the operating system is joined to the
      working directory and normalised as [os.path.abspath] does.
      Symbolic links and permissions are not modelled, and [savefig] is
      taken on paths it accepts: a known image extension in an existing
      directory. *)

From Stdlib Require Import String Ascii.
From Stdlib Require Import Reals Lra List Bool Arith Lia.
Import ListNotations.

Local Open Scope string_scope.
Local Open Scope list_scope.
Local Open Scope R_scope.

(* ================================================================== *)
(** ** Complex numbers (numpy complex128, exact arithmetic) *)

Module Complex.

Record C : Type := mkC { re : R; im : R }.

(** numpy promotes a real operand to a complex one with zero imaginary
    part before a mixed operation. *)
Definition RtoC (x : R) : C := mkC x 0.

Definition C0 : C := RtoC 0.
Definition C1 : C := RtoC 1.
(** The Python literal [1j]. *)
Definition Ci : C := mkC 0 1.

Definition Cadd (a b : C) : C := mkC (re a + re b) (im a + im b).
Definition Csub (a b : C) : C := mkC (re a - re b) (im a - im b).
Definition Cmul (a b : C) : C :=
  mkC (re a * re b - im a * im b) (re a * im b + im a * re b).
Definition Cdiv (a b : C) : C :=
  let d := re b * re b + im b * im b in
  mkC ((re a * re b + im a * im b) / d) ((im a * re b - re a * im b) / d).

(** [numpy.exp] on a complex argument. *)
Definition Cexp (z : C) : C :=
  mkC (exp (re z) * cos (im z)) (exp (re z) * sin (im z)).

(** [numpy.abs] on a complex argument. *)
Definition Cabs (z : C) : R := sqrt (re z * re z + im z * im z).

End Complex.
Import Complex.

(* ================================================================== *)
(** ** numpy element-wise operations *)

Fixpoint zip_with {A B X : Type} (op : A -> B -> X)
  (xs : list A) (ys : list B) : list X :=
  match xs, ys with
  | x :: xs', y :: ys' => op x y :: zip_with op xs' ys'
  | _, _ => []
  end.

(** A binary ufunc on two one-dimensional arrays: equal shapes combine
    point by point, a one-element array is stretched, anything else is
    a shape error. *)
Definition broadcast {A B X : Type} (op : A -> B -> X)
  (xs : list A) (ys : list B) : option (list X) :=
  if Nat.eqb (length xs) (length ys) then Some (zip_with op xs ys)
  else match xs, ys with
       | [x], _ => Some (map (op x) ys)
       | _, [y] => Some (map (fun x => op x y) xs)
       | _, _ => None
       end.

(** A Python float or a one-dimensional float array, for the routines
    that accept either. *)
Inductive value : Type :=
| Float (x : R)
| NDArray (xs : list R).

Definition vmap (g : R -> R) (v : value) : value :=
  match v with
  | Float x => Float (g x)
  | NDArray xs => NDArray (map g xs)
  end.

(** [numpy.concatenate([z.real, z.imag])]. *)
Definition concat_real_imag (z : list C) : list R := map re z ++ map im z.

(** [numpy.log10] on a positive real. *)
Definition log10 (x : R) : R := ln x / ln 10.

(* ================================================================== *)
(** ** Strings and POSIX paths *)

(** [str.replace(a, b)] for one-character arguments. *)
Fixpoint replace (a b : ascii) (p : string) : string :=
  match p with
  | EmptyString => EmptyString
  | String c r => String (if Ascii.eqb c a then b else c) (replace a b r)
  end.

(** [str.rfind(c)], with [None] for Python's -1. *)
Fixpoint rfind (c : ascii) (p : string) : option nat :=
  match p with
  | EmptyString => None
  | String a r =>
      match rfind c r with
      | Some j => Some (S j)
      | None => if Ascii.eqb a c then Some 0%nat else None
      end
  end.

(** The slice [p[i:]]. *)
Fixpoint drop (i : nat) (p : string) : string :=
  match i, p with
  | O, _ => p
  | S i', String _ r => drop i' r
  | S _, EmptyString => EmptyString
  end.

Definition sep : ascii := "/"%char.

(** [posixpath.basename]: [i = p.rfind(sep) + 1; return p[i:]]. *)
Definition pbase (p : string) : string :=
  let i := match rfind sep p with Some j => S j | None => O end in
  drop i p.

Definition startswith_sep (p : string) : bool :=
  match p with
  | String c _ => Ascii.eqb c sep
  | EmptyString => false
  end.

Fixpoint endswith_sep (p : string) : bool :=
  match p with
  | EmptyString => false
  | String c EmptyString => Ascii.eqb c sep
  | String _ r => endswith_sep r
  end.

(** [posixpath.join] of two components. *)
Definition pjoin (a b : string) : string :=
  if startswith_sep b then b
  else if (String.eqb a "" || endswith_sep a)%bool then (a ++ b)%string
  else (a ++ "/" ++ b)%string.

(** [p.split('/')]. *)
Fixpoint split_sep (p : string) : list string :=
  match p with
  | EmptyString => [EmptyString]
  | String c r =>
      if Ascii.eqb c sep then EmptyString :: split_sep r
      else match split_sep r with
           | comp :: rest => String c comp :: rest
           | [] => [String c EmptyString]
           end
  end.

(** ['/'.join(comps)]. *)
Fixpoint join_sep (comps : list string) : string :=
  match comps with
  | [] => EmptyString
  | [c] => c
  | c :: rest => (c ++ "/" ++ join_sep rest)%string
  end.

(** The loop of [posixpath.normpath]: empty and ['.'] components are
    dropped, ['..'] removes the component before it, except at the
    start of a relative path or after another ['..']. *)
Fixpoint norm_comps (initial_slashes : bool) (comps new_comps : list string)
  : list string :=
  match comps with
  | [] => new_comps
  | comp :: rest =>
      if (String.eqb comp "" || String.eqb comp ".")%bool
      then norm_comps initial_slashes rest new_comps
      else if (negb (String.eqb comp "..")
               || (negb initial_slashes
                   && match new_comps with [] => true | _ => false end)
               || String.eqb (last new_comps "") "..")%bool
      then norm_comps initial_slashes rest (new_comps ++ [comp])
      else norm_comps initial_slashes rest (removelast new_comps)
  end.

(** The number of slashes [normpath] keeps in front: two when the path
    begins with exactly two. *)
Definition initial_slashes (path : string) : string :=
  match path with
  | String a (String b (String c _)) =>
      if Ascii.eqb a sep
      then if (Ascii.eqb b sep && negb (Ascii.eqb c sep))%bool
           then "//" else "/"
      else ""
  | String a (String b EmptyString) =>
      if Ascii.eqb a sep then if Ascii.eqb b sep then "//" else "/" else ""
  | String a EmptyString => if Ascii.eqb a sep then "/" else ""
  | EmptyString => ""
  end.

(** [posixpath.normpath]. *)
Definition normpath (path : string) : string :=
  if String.eqb path "" then "."
  else
    let comps := norm_comps (startswith_sep path) (split_sep path) [] in
    let res := (initial_slashes path ++ join_sep comps)%string in
    if String.eqb res "" then "." else res.

(* ================================================================== *)
(** ** The ordered dict *)

(** A Python [dict]: keys are unique and keep the position of their
    first insertion; storing under a present key replaces its value. *)
Definition dict (V : Type) : Type := list (string * V).

Fixpoint dict_set {V : Type} (k : string) (v : V) (d : dict V) : dict V :=
  match d with
  | [] => [(k, v)]
  | (k', v') :: d' =>
      if String.eqb k' k then (k', v) :: d' else (k', v') :: dict_set k v d'
  end.

Fixpoint dict_get {V : Type} (k : string) (d : dict V) : option V :=
  match d with
  | [] => None
  | (k', v') :: d' => if String.eqb k' k then Some v' else dict_get k d'
  end.

Definition keys {V : Type} (d : dict V) : list string := map fst d.

(* ================================================================== *)
(** ** Networks, the world and the monad of the module *)

(** The part of [skrf.Network] the module reads: the frequency grid
    [ntwk.f] and the one-port column [ntwk.s[:, 0, 0]]. *)
Record Network : Type := mkNetwork { f : list R; s : list C }.

(** The data-model invariant of a frequency-domain response. *)
Definition wf_Network (n : Network) : Prop := length (f n) = length (s n).

(** A reference to a network object. *)
Definition ref : Type := nat.

Inductive node : Type :=
| Dir
| Image
| Touchstone (n : Network).

Inductive event : Type :=
| ConsolePrint (msg : string)
| Subplots (nrows : nat)
| Plot (axis : nat) (x y : list R)
       (label : option string) (color linestyle : string)
| AxHLine (axis : nat) (y : R)
| SmithPlot (label : string) (ntwk : ref)
| SaveFig (path : string)
| ShowFigure
| MakeDirs (path : string)
| WriteTouchstone (path : string) (ntwk : ref).

Inductive exn : Type :=
| AssertionError (msg : string)
| ValueError
| ZeroDivisionError
| IndexError
| KeyError (key : string)
| FileNotFoundError (path : string)
| RuntimeError
| InvalidRef
| TypeError
| OverflowError
| IsADirectoryError (path : string).

Record world : Type := mkWorld {
  heap : list Network;
  fs : dict node;
  cwd : string;
  trace : list event
}.

Definition M (A : Type) : Type := world -> (exn + A) * world.

Definition ret {A} (a : A) : M A := fun w => (inr a, w).

Definition bind {A B} (m : M A) (k : A -> M B) : M B :=
  fun w =>
    match m w with
    | (inl e, w') => (inl e, w')
    | (inr a, w') => k a w'
    end.

Definition raise {A} (e : exn) : M A := fun w => (inl e, w).

Declare Scope py_scope.
Delimit Scope py_scope with py.
Notation "x <- m ;; k" := (bind m (fun x => k))
  (at level 61, m at next level, right associativity) : py_scope.
Notation "m ;;; k" := (bind m (fun _ => k))
  (at level 61, right associativity) : py_scope.
Local Open Scope py_scope.

Definition lift_opt {A} (e : exn) (o : option A) : M A :=
  match o with
  | Some a => ret a
  | None => raise e
  end.

Definition when (b : bool) (m : M unit) : M unit :=
  if b then m else ret tt.

(** [for x in xs: body(x)]. *)
Fixpoint for_each {A} (xs : list A) (body : A -> M unit) : M unit :=
  match xs with
  | [] => ret tt
  | x :: xs' => body x ;;; for_each xs' body
  end.

(** [enumerate]. *)
Fixpoint enumerate_from {A} (i : nat) (xs : list A) : list (nat * A) :=
  match xs with
  | [] => []
  | x :: xs' => (i, x) :: enumerate_from (S i) xs'
  end.

Definition enumerate {A} (xs : list A) : list (nat * A) := enumerate_from 0 xs.

Definition deref (r : ref) : M Network :=
  fun w => lift_opt InvalidRef (nth_error (heap w) r) w.

(** [rf.Network(s=..., f=...)]: a new object; the arrays are stored as
    given. *)
Definition new_Network (sv : list C) (fv : list R) : M ref :=
  fun w => (inr (length (heap w)),
            mkWorld (heap w ++ [mkNetwork fv sv]) (fs w) (cwd w) (trace w)).

Definition emit (e : event) : M unit :=
  fun w => (inr tt, mkWorld (heap w) (fs w) (cwd w) (trace w ++ [e])).

Definition getcwd : M string := fun w => (inr (cwd w), w).

(** A path given to the operating system is resolved against the
    working directory: [os.path.abspath]. *)
Definition resolve (w : world) (p : string) : string :=
  normpath (pjoin (cwd w) p).

(** [os.path.exists(p)]; the empty path names nothing. *)
Definition path_exists (p : string) : M bool :=
  fun w => (inr (if String.eqb p "" then false
                 else match dict_get (resolve w p) (fs w) with
                      | Some _ => true
                      | None => false
                      end), w).

Definition fs_write (p : string) (n : node) : M unit :=
  fun w => (inr tt,
            mkWorld (heap w) (dict_set (resolve w p) n (fs w)) (cwd w)
              (trace w)).

(** [os.makedirs(p)] on a path that does not exist; the empty path
    cannot be created. *)
Definition makedirs (p : string) : M unit :=
  if String.eqb p "" then raise (FileNotFoundError p)
  else emit (MakeDirs p) ;;; fs_write p Dir.

(** [rf.Network(file)]: parse a one-port touchstone file into a new
    object. *)
Definition Network_from_file (file : string) : M ref :=
  fun w =>
    match dict_get (resolve w file) (fs w) with
    | None => raise (FileNotFoundError file) w
    | Some (Touchstone n) => new_Network (s n) (f n) w
    | Some Dir => raise (IsADirectoryError file) w
    | Some Image => raise ValueError w
    end.

(** The parameters of [skrf.Network.write_touchstone]; there is no
    [overwrite] among them. *)
Definition write_touchstone_keywords : list string :=
  ["filename"; "dir"; "write_z0"; "skrf_comment"; "return_string";
   "to_archive"; "form"; "format_spec_A"; "format_spec_B";
   "format_spec_freq"; "r_ref"; "parameter"].

(** [ntwk.write_touchstone(filename, **kwargs)]: a keyword the method
    does not have is a [TypeError], raised before anything is written. *)
Definition write_touchstone (r : ref) (filename : string)
  (kwargs : list string) : M unit :=
  if forallb (fun k => existsb (String.eqb k) write_touchstone_keywords) kwargs
  then n <- deref r ;;
       emit (WriteTouchstone filename r) ;;;
       fs_write filename (Touchstone n)
  else raise TypeError.

(** [plt.savefig(path)] and [fig.savefig(path)]. *)
Definition savefig (path : string) : M unit :=
  emit (SaveFig path) ;;; fs_write path Image.

(** [ax.plot(x, y, ...)]: matplotlib refuses arrays whose first
    dimensions differ. *)
Definition ax_plot (axis : nat) (x y : list R)
  (label : option string) (color linestyle : string) : M unit :=
  if Nat.eqb (length x) (length y)
  then emit (Plot axis x y label color linestyle)
  else raise ValueError.

(** [assert cond, msg]. *)
Definition assert (cond : bool) (msg : string) : M unit :=
  if cond then ret tt else raise (AssertionError msg).

(* ================================================================== *)
(** ** The loader *)

(** The dict comprehension
    [{label: rf.Network(file) for file, label in pairs}]. *)
Fixpoint load_pairs (pairs : list (string * string)) (d : dict ref)
  : M (dict ref) :=
  match pairs with
  | [] => ret d
  | (file, label) :: rest =>
      r <- Network_from_file file ;;
      load_pairs rest (dict_set label r d)
  end.

Definition load_s1p (s1p_files : list string) (labels : option (list string))
  : M (dict ref) :=
  let labels :=
    match labels with
    | None => map pbase s1p_files
    | Some l => l
    end in
  load_pairs (combine s1p_files labels) [].

(** The mapping built from a list of labels when the objects of the
    files are allocated one after the other from reference [base]. *)
Fixpoint assign (labels : list string) (base : ref) (d : dict ref)
  : dict ref :=
  match labels with
  | [] => d
  | l :: ls => assign ls (S base) (dict_set l base d)
  end.

(** The position of the last occurrence of a label. *)
Fixpoint last_index (k : string) (labels : list string) : option nat :=
  match labels with
  | [] => None
  | l :: ls =>
      match last_index k ls with
      | Some j => Some (S j)
      | None => if String.eqb l k then Some 0%nat else None
      end
  end.

(** Every file of the list holds touchstone data in the file system of
    the world; [nets] lists the data. *)
Definition readable (w : world) (files : list string) (nets : list Network)
  : Prop :=
  Forall2 (fun file n => dict_get (resolve w file) (fs w) = Some (Touchstone n))
    files nets.

(* ================================================================== *)
(** ** The reflection combiner *)

Definition LNA_total_reflection (rho_cable_ntwk rho_LNA_ntwk : ref) : M ref :=
  cable <- deref rho_cable_ntwk ;;
  lna <- deref rho_LNA_ntwk ;;
  let rho_cable := s cable in
  let rho_LNA := s lna in
  prod <- lift_opt ValueError (broadcast Cmul rho_cable rho_LNA) ;;
  let den := map (fun z => Csub C1 z) prod in
  a_lna <- lift_opt ValueError
             (broadcast Cdiv (map (fun z => Cmul z C1) rho_cable) den) ;;
  new_Network a_lna (f cable).

(** The array the combiner stores, when both columns have one length. *)
Definition combined (rho_cable rho_LNA : list C) : list C :=
  zip_with Cdiv (map (fun z => Cmul z C1) rho_cable)
    (map (fun z => Csub C1 z) (zip_with Cmul rho_cable rho_LNA)).

(* ================================================================== *)
(** ** The power converter *)

Definition s11_reflected_power (s11_db : value) (p_in_k : R) : value :=
  let R_ := vmap (fun x => Rpower 10 x) (vmap (fun x => x / 10) s11_db) in
  vmap (fun r => p_in_k * r) R_.

(** The call with [p_in_k] left at its default. *)
Definition s11_reflected_power_default (s11_db : value) : value :=
  s11_reflected_power s11_db 50.




(* ================================================================== *)
(** ** The model fitters *)

(** [A_real + 1j * A_imag]. *)
Definition amplitude (A_real A_imag : R) : C :=
  Cadd (RtoC A_real) (Cmul Ci (RtoC A_imag)).

(** [np.exp(1j * 2 * np.pi * freq * t_delay)] on a frequency array. *)
Definition np_phase (freq : list R) (t_delay : R) : list C :=
  map Cexp
    (map (fun z => Cmul z (RtoC t_delay))
       (map (fun x => Cmul (Cmul (Cmul Ci (RtoC 2)) (RtoC PI)) (RtoC x))
          freq)).

(** [np.exp(-alpha * freq)] on a frequency array. *)
Definition np_decay (freq : list R) (alpha : R) : list R :=
  map exp (map (fun x => - alpha * x) freq).

(** The inner [reflection_model] of [fit_exp_decay]. *)
Definition reflection_model_decay (freq : list R) (p : R * R * R * R)
  : list R :=
  let '(A_real, A_imag, t_delay, alpha) := p in
  let A := amplitude A_real A_imag in
  let decay := np_decay freq alpha in
  let model :=
    zip_with Cmul (map (fun d => Cmul (RtoC d) A) decay)
      (np_phase freq t_delay) in
  concat_real_imag model.

(** The inner [reflection_model] of [fit_reflection_coeff]. *)
Definition reflection_model_delay (freq : list R) (p : R * R * R) : list R :=
  let '(A_real, A_imag, t_delay) := p in
  let A := amplitude A_real A_imag in
  let model := map (fun e => Cmul A e) (np_phase freq t_delay) in
  concat_real_imag model.

Section Fitting.

(** [scipy.optimize.curve_fit(model, xdata, ydata, p0=...)]: the fitted
    parameters have the shape of [p0]; [None] when the solver raises. *)
Variable curve_fit :
  forall {P : Type},
    (list R -> P -> list R) -> list R -> list R -> P -> option P.

Definition save_fitted (s1p_fitted_ntwk : ref) (save_path : option string)
  : M unit :=
  match save_path with
  | Some p => write_touchstone s1p_fitted_ntwk p ["overwrite"]
  | None => ret tt
  end.

Definition fit_exp_decay (s1p_ntwk : ref)
  (guess_A_real guess_A_imag guess_delay guess_alpha : R)
  (save_path : option string) : M (C * R * R * ref) :=
  ntwk <- deref s1p_ntwk ;;
  let fq := f ntwk in
  let gamma_meas := s ntwk in
  let gamma_meas_comb := concat_real_imag gamma_meas in
  popt <- lift_opt RuntimeError
            (curve_fit reflection_model_decay fq gamma_meas_comb
               (guess_A_real, guess_A_imag, guess_delay, guess_alpha)) ;;
  let '(p0, p1, p2, p3) := popt in
  let A_fitted := amplitude p0 p1 in
  let t_delay_fitted := p2 in
  let alpha_fitted := p3 in
  let s1p_fitted :=
    zip_with Cmul
      (map (fun d => Cmul A_fitted (RtoC d)) (np_decay fq alpha_fitted))
      (np_phase fq t_delay_fitted) in
  s1p_fitted_ntwk <- new_Network s1p_fitted fq ;;
  save_fitted s1p_fitted_ntwk save_path ;;;
  ret (A_fitted, t_delay_fitted, alpha_fitted, s1p_fitted_ntwk).

Definition fit_reflection_coeff (s1p_ntwk : ref)
  (guess_A_real guess_A_imag guess_delay : R)
  (save_path : option string) : M (C * R * ref) :=
  ntwk <- deref s1p_ntwk ;;
  let fq := f ntwk in
  let gamma_meas := s ntwk in
  let gamma_meas_comb := concat_real_imag gamma_meas in
  popt <- lift_opt RuntimeError
            (curve_fit reflection_model_delay fq gamma_meas_comb
               (guess_A_real, guess_A_imag, guess_delay)) ;;
  let '(p0, p1, p2) := popt in
  let A_fitted := amplitude p0 p1 in
  let t_delay_fitted := p2 in
  let s1p_fitted :=
    map (fun e => Cmul A_fitted e) (np_phase fq t_delay_fitted) in
  s1p_fitted_ntwk <- new_Network s1p_fitted fq ;;
  save_fitted s1p_fitted_ntwk save_path ;;;
  ret (A_fitted, t_delay_fitted, s1p_fitted_ntwk).

End Fitting.

(** The models as the specification writes them, at one frequency. *)
Definition delay_model (A : C) (tau : R) (x : R) : C :=
  Cmul A (Cexp (mkC 0 (2 * PI * x * tau))).

Definition decay_model (A : C) (tau alpha : R) (x : R) : C :=
  Cmul (delay_model A tau x) (RtoC (exp (- alpha * x))).

(** The world after a fitter has stored the synthesised network
    [out]: nothing but the heap has changed. *)
Definition fitted_world (w : world) (out : Network) : world :=
  mkWorld (heap w ++ [out]) (fs w) (cwd w) (trace w).

(** What a fitter gives back for its result [res]: with a save path the
    call to [write_touchstone] raises first. *)
Definition fitted_outcome {A : Type} (res : A) (save_path : option string)
  : exn + A :=
  match save_path with
  | None => inr res
  | Some _ => inl TypeError
  end.

(* ================================================================== *)
(** ** The plotting suite *)

Definition getitem {V : Type} (d : dict V) (k : string) : M V :=
  lift_opt (KeyError k) (dict_get k d).

(** [20 * np.log10(np.abs(z)) if scale == 'log' else np.abs(z)]. *)
Definition magnitude (scale : string) (z : list C) : list R :=
  if String.eqb scale "log"
  then map (fun a => 20 * a) (map log10 (map Cabs z))
  else map Cabs z.

(** [freq / 1e6]. *)
Definition MHz (freq : list R) : list R := map (fun x => x / 1000000) freq.

Definition no_path_msg : string := "! Save path not entered.".

(** The save block shared by the two frequency plots:
    [if save_plot: savefig(save_path) if save_path is not None else print]. *)
Definition save_or_warn (save_plot : bool) (save_path : option string)
  : M unit :=
  when save_plot
    match save_path with
    | Some p => savefig p
    | None => emit (ConsolePrint no_path_msg)
    end.

(** [plot_measured_vs_fitted] up to its save block: the arity check,
    the magnitudes and the two panels. *)
Definition draw_measured_vs_fitted (ntwk_dict : dict ref) (scale : string)
  : M unit :=
  assert (Nat.eqb (length ntwk_dict) 2)
    "ntwk_dict must contain exactly two items: measured and fitted." ;;;
  let ks := keys ntwk_dict in
  k0 <- lift_opt IndexError (nth_error ks 0) ;;
  k1 <- lift_opt IndexError (nth_error ks 1) ;;
  measured_ntwk <- getitem ntwk_dict k0 ;;
  fitted_ntwk <- getitem ntwk_dict k1 ;;
  measured <- deref measured_ntwk ;;
  fitted <- deref fitted_ntwk ;;
  let freq := f measured in
  let spec_measured := s measured in
  let spec_fitted := s fitted in
  let mag_measured := magnitude scale spec_measured in
  let mag_fitted := magnitude scale spec_fitted in
  ratio <- lift_opt ValueError (broadcast Rdiv mag_measured mag_fitted) ;;
  emit (Subplots 2) ;;;
  ax_plot 0 (MHz freq) mag_measured (Some k0) "C0" "-" ;;;
  ax_plot 0 (MHz freq) mag_fitted (Some k1) "C1" "--" ;;;
  ax_plot 1 (MHz freq) (map (fun r => 1 / r) ratio) None "C2" "-" ;;;
  emit (AxHLine 1 1).

Definition plot_measured_vs_fitted (ntwk_dict : dict ref) (scale : string)
  (save_plot : bool) (save_path : option string) : M unit :=
  draw_measured_vs_fitted ntwk_dict scale ;;;
  save_or_warn save_plot save_path ;;;
  emit ShowFigure.

Section Plotting.

(** [plt.rcParams['axes.prop_cycle'].by_key()['color']]. *)
Variable color_cycle : list string.

(** [np.angle(z, deg=True)] at one point. *)
Variable angle_deg : C -> R.

(** [plt.subplots(nrows=...)] in a process whose colour cycle is
    [color_cycle]: the new axes start their cycle at once, which fails
    on an empty one. *)
Definition subplots (nrows : nat) : M unit :=
  if Nat.eqb (length color_cycle) 0 then raise ZeroDivisionError
  else emit (Subplots nrows).

Definition plot_s11_trace (scale : string) (show_phase : bool)
  (item : nat * (string * ref)) : M unit :=
  let '(idx, (label, r)) := item in
  ntwk <- deref r ;;
  let freq := f ntwk in
  let s11 := s ntwk in
  let mag := magnitude scale s11 in
  let phase := map angle_deg s11 in
  (if Nat.eqb (length color_cycle) 0
   then raise ZeroDivisionError else ret tt) ;;;
  color <- lift_opt IndexError
             (nth_error color_cycle (idx mod length color_cycle)) ;;
  ax_plot 0 (MHz freq) mag (Some label) color "-" ;;;
  when show_phase (ax_plot 1 (MHz freq) phase (Some label) color "--").

(** [plot_s11_reflect] up to its save block. *)
Definition draw_s11_reflect (ntwk_dict : dict ref) (scale : string)
  (show_phase : bool) : M unit :=
  let nrows := if show_phase then 2%nat else 1%nat in
  subplots nrows ;;;
  for_each (enumerate ntwk_dict) (plot_s11_trace scale show_phase).

Definition plot_s11_reflect (ntwk_dict : dict ref) (scale : string)
  (save_plot show_phase : bool) (save_path : option string) : M unit :=
  draw_s11_reflect ntwk_dict scale show_phase ;;;
  save_or_warn save_plot save_path ;;;
  emit ShowFigure.

End Plotting.

Definition space : ascii := " "%char.
Definition underscore : ascii := "_"%char.

(** The body of the per-trace loop of [plot_smith_chart]; [suffix] is the
    variable as it stands when the loop runs. *)
Definition smith_individual (suffix : string) (save_plot : bool)
  (item : string * ref) : M unit :=
  let '(label, ntwk) := item in
  emit (Subplots 1) ;;;
  emit (SmithPlot label ntwk) ;;;
  when save_plot
    (let label_safe := replace space underscore label in
     let outname := (suffix ++ "_smith_" ++ label_safe ++ ".png")%string in
     savefig outname).

Definition plot_smith_chart (ntwk_dict : dict ref) (suffix : string)
  (save_plot : bool) (save_dir : option string) (individual : bool)
  : M unit :=
  emit (Subplots 1) ;;;
  for_each ntwk_dict (fun '(label, ntwk) => emit (SmithPlot label ntwk)) ;;;
  suffix <-
    (if save_plot then
       let suffix := replace space underscore suffix in
       save_dir <- match save_dir with
                   | None => getcwd
                   | Some d => ret d
                   end ;;
       ex <- path_exists save_dir ;;
       when (negb ex) (makedirs save_dir) ;;;
       savefig (pjoin save_dir (suffix ++ "_smith_chart.png")%string) ;;;
       ret suffix
     else ret suffix) ;;
  emit ShowFigure ;;;
  when individual (for_each ntwk_dict (smith_individual suffix save_plot)).

(* ================================================================== *)
(** ** What the plotting routines are expected to leave behind *)

Definition add_events (w : world) (evs : list event) : world :=
  mkWorld (heap w) (fs w) (cwd w) (trace w ++ evs).

(** The two panels of the measured-vs-fitted figure, for a collection
    whose first entry is [(k0, measured)] and second [(k1, fitted)]. *)
Definition measured_vs_fitted_events (k0 k1 : string)
  (measured fitted : Network) (scale : string) : list event :=
  let x := MHz (f measured) in
  let mm := magnitude scale (s measured) in
  let mf := magnitude scale (s fitted) in
  [Subplots 2;
   Plot 0 x mm (Some k0) "C0" "-";
   Plot 0 x mf (Some k1) "C1" "--";
   Plot 1 x (map (fun r => 1 / r) (zip_with Rdiv mm mf)) None "C2" "-";
   AxHLine 1 1].

(** File names of the Smith charts, both parts with spaces replaced. *)
Definition combined_chart_name (suffix : string) : string :=
  (replace space underscore suffix ++ "_smith_chart.png")%string.

Definition trace_chart_name (suffix label : string) : string :=
  (replace space underscore suffix ++ "_smith_"
     ++ replace space underscore label ++ ".png")%string.

(** The directory of the combined chart. *)
Definition chart_dir (w : world) (save_dir : option string) : string :=
  match save_dir with
  | None => cwd w
  | Some d => d
  end.

Definition dir_missing (w : world) (d : string) : bool :=
  if String.eqb d "" then true
  else match dict_get (resolve w d) (fs w) with
       | Some _ => false
       | None => true
       end.

(** Events of the combined Smith chart with [save_plot] set. *)
Definition combined_chart_events (w : world) (ntwk_dict : dict ref)
  (suffix : string) (save_dir : option string) : list event :=
  let d := chart_dir w save_dir in
  [Subplots 1]
    ++ map (fun '(label, r) => SmithPlot label r) ntwk_dict
    ++ (if dir_missing w d then [MakeDirs d] else [])
    ++ [SaveFig (pjoin d (combined_chart_name suffix)); ShowFigure].

(** Events of the per-trace Smith charts with [save_plot] set. *)
Definition trace_chart_events (ntwk_dict : dict ref) (suffix : string)
  : list event :=
  flat_map (fun '(label, r) =>
              [Subplots 1; SmithPlot label r;
               SaveFig (trace_chart_name suffix label)])
    ntwk_dict.

(** The file system after the combined chart has been saved. *)
Definition combined_chart_fs (w : world) (suffix : string)
  (save_dir : option string) : dict node :=
  let d := chart_dir w save_dir in
  dict_set (resolve w (pjoin d (combined_chart_name suffix))) Image
    (if dir_missing w d then dict_set (resolve w d) Dir (fs w) else fs w).

(** The file system after the per-trace charts have been saved on top
    of [t], in a process whose working directory is that of [w]. *)
Definition trace_chart_fs (w : world) (ntwk_dict : dict ref) (suffix : string)
  (t : dict node) : dict node :=
  fold_left
    (fun acc item =>
       dict_set (resolve w (trace_chart_name suffix (fst item))) Image acc)
    ntwk_dict t.

(** One per-trace chart with [save_plot] set; [sfx] is the suffix after
    the save block, [w0] a world with the working directory of the
    process. *)
Definition trace_chart_step (w0 : world) (sfx : string)
  (item : string * ref) (w : world) : world :=
  let name := (sfx ++ "_smith_"
                 ++ replace space underscore (fst item) ++ ".png")%string in
  mkWorld (heap w) (dict_set (resolve w0 name) Image (fs w)) (cwd w)
    (trace w ++ [Subplots 1; SmithPlot (fst item) (snd item); SaveFig name]).

(** The shape of the two frequency plots: a drawing part, the save
    block, the display. *)
Definition framed (draw : M unit) (save_plot : bool)
  (save_path : option string) : M unit :=
  draw ;;; save_or_warn save_plot save_path ;;; emit ShowFigure.

Definition is_print (e : event) : bool :=
  match e with
  | ConsolePrint _ => true
  | _ => false
  end.

(** Whatever has been added to the trace, nothing was printed. *)
Definition no_print (w w' : world) : Prop :=
  exists evs,
    trace w' = trace w ++ evs /\
    forallb (fun e => negb (is_print e)) evs = true.

(** Only errors that satisfy [P] can come out of a computation. *)
Definition raises_only (P : exn -> Prop) {A : Type} (m : M A) : Prop :=
  forall w e w', m w = (inl e, w') -> P e.

Definition not_assertion (e : exn) : Prop :=
  match e with
  | AssertionError _ => False
  | _ => True
  end.

Definition arity_msg : string :=
  "ntwk_dict must contain exactly two items: measured and fitted.".

(* ================================================================== *)
(** ** Footprints *)

(** A relation between the world before and after a computation holds
    for every run of the computation. *)
Definition keeps (I : world -> world -> Prop) {A : Type} (m : M A) : Prop :=
  forall w, I w (snd (m w)).

(** Objects are only added: every reference of the old heap denotes the
    same frequency and value sequences in the new one. *)
Definition heap_grows (w w' : world) : Prop :=
  exists added, heap w' = heap w ++ added.

Definition heap_same (w w' : world) : Prop := heap w' = heap w.

Definition is_savefig (e : event) : bool :=
  match e with
  | SaveFig _ => true
  | _ => false
  end.

(** No file is written and no figure is saved. *)
Definition no_write (w w' : world) : Prop :=
  fs w' = fs w /\
  exists evs,
    trace w' = trace w ++ evs /\
    forallb (fun e => negb (is_savefig e)) evs = true.

(* ================================================================== *)
(** ** Further vocabulary for the properties *)

(** Nothing outside the heap is touched: no file, no console output, no
    figure, no change of directory. *)
Definition silent (w w' : world) : Prop :=
  fs w' = fs w /\ cwd w' = cwd w /\ trace w' = trace w.

Definition same_cwd (w w' : world) : Prop := cwd w' = cwd w.

(** A complex number with a non-zero modulus. *)
Definition Cnonzero (z : C) : Prop := re z * re z + im z * im z <> 0.

(** The numbers held by a float or an array. *)
Definition values (v : value) : list R :=
  match v with
  | Float x => [x]
  | NDArray xs => xs
  end.

(** [c in p] for a character. *)
Fixpoint has_char (c : ascii) (p : string) : bool :=
  match p with
  | EmptyString => false
  | String a r => (Ascii.eqb a c || has_char c r)%bool
  end.

Definition is_makedirs (e : event) : bool :=
  match e with
  | MakeDirs _ => true
  | _ => false
  end.

(** The traces of one entry of the multi-trace plot: the magnitude on
    the first panel and, on request, the phase on the second, in the
    colour the palette holds at the entry's position modulo its
    length. *)
Definition s11_trace_events (color_cycle : list string) (angle_deg : C -> R)
  (scale : string) (show_phase : bool) (idx : nat) (label : string)
  (n : Network) : list event :=
  let color := nth (idx mod length color_cycle) color_cycle "" in
  Plot 0 (MHz (f n)) (magnitude scale (s n)) (Some label) color "-"
    :: (if show_phase
        then [Plot 1 (MHz (f n)) (map angle_deg (s n)) (Some label) color "--"]
        else []).

Fixpoint s11_events (color_cycle : list string) (angle_deg : C -> R)
  (scale : string) (show_phase : bool) (idx : nat)
  (d : dict ref) (nets : list Network) : list event :=
  match d, nets with
  | (label, _) :: d', n :: nets' =>
      s11_trace_events color_cycle angle_deg scale show_phase idx label n
        ++ s11_events color_cycle angle_deg scale show_phase (S idx) d' nets'
  | _, _ => []
  end.

(** The entries of a collection denote the given well-formed
    responses. *)
Definition holds (w : world) (d : dict ref) (nets : list Network) : Prop :=
  Forall2 (fun item n => nth_error (heap w) (snd item) = Some n
                         /\ wf_Network n) d nets.

(* ================================================================== *)
(** ** Sample data *)

Definition cable_data : Network :=
  mkNetwork [1000000; 2000000] [mkC (1 / 2) 0; mkC 0 (1 / 4)].

Definition lna_data : Network :=
  mkNetwork [1000000; 2000000] [C0; mkC (1 / 3) 0].

(** A laboratory machine: two networks already in memory and three
    measurement files on disk, two of them with the same base name. *)
Definition lab : world :=
  mkWorld [cable_data; lna_data]
    [("/lab", Dir);
     ("/data/cable.s1p", Touchstone cable_data);
     ("/data/run1/lna.s1p", Touchstone lna_data);
     ("/data/run2/lna.s1p", Touchstone cable_data)]
    "/lab" [].

(** A three-point response, and a bench that also holds it. *)
Definition sweep_data : Network :=
  mkNetwork [1000000; 2000000; 3000000]
    [mkC (1 / 2) 0; mkC 0 (1 / 4); mkC (1 / 8) (1 / 8)].

Definition bench : world :=
  mkWorld [cable_data; lna_data; sweep_data] (fs lab) "/lab" [].

(** A response with a single point, next to the cable's. *)
Definition point_data : Network := mkNetwork [1000000] [mkC (1 / 3) 0].

Definition spot : world :=
  mkWorld [cable_data; point_data] (fs lab) "/lab" [].

(** A stand-in for the solver that accepts the initial guess. *)
Definition echo_fit (P : Type) (model : list R -> P -> list R)
  (xdata ydata : list R) (p0 : P) : option P := Some p0.

(* ================================================================== *)
(** * Properties *)

(** ** Complex arithmetic *)

Lemma C_eq (a b : C) : re a = re b -> im a = im b -> a = b.
Proof. destruct a, b; simpl; intros -> ->; reflexivity. Qed.

Lemma Cmul_1_r (z : C) : Cmul z C1 = z.
Proof. apply C_eq; simpl; ring. Qed.

Lemma Cmul_0_r (z : C) : Cmul z C0 = C0.
Proof. apply C_eq; simpl; ring. Qed.

Lemma Cmul_comm (a b : C) : Cmul a b = Cmul b a.
Proof. apply C_eq; simpl; ring. Qed.

Lemma Cmul_assoc (a b c : C) : Cmul a (Cmul b c) = Cmul (Cmul a b) c.
Proof. apply C_eq; simpl; ring. Qed.

Lemma Csub_0_r (z : C) : Csub z C0 = z.
Proof. apply C_eq; simpl; ring. Qed.

Lemma Cdiv_1_r (z : C) : Cdiv z C1 = z.
Proof. apply C_eq; unfold Cdiv; simpl; field. Qed.

(** ** Element-wise operations *)

Lemma zip_with_length {A B X} (op : A -> B -> X) xs ys :
  length xs = length ys -> length (zip_with op xs ys) = length xs.
Proof.
  revert ys; induction xs as [|x xs IH]; intros [|y ys]; simpl; intros H;
    try discriminate; auto.
Qed.

Lemma zip_with_nth {A B X} (op : A -> B -> X) xs ys i a b :
  nth_error xs i = Some a -> nth_error ys i = Some b ->
  nth_error (zip_with op xs ys) i = Some (op a b).
Proof.
  revert ys i; induction xs as [|x xs IH]; intros [|y ys] [|i]; simpl;
    try discriminate.
  - intros [= ->] [= ->]; reflexivity.
  - apply IH.
Qed.

Lemma zip_with_map {A X Y Z} (op : X -> Y -> Z) (g : A -> X) (h : A -> Y) l :
  zip_with op (map g l) (map h l) = map (fun a => op (g a) (h a)) l.
Proof. induction l as [|a l IH]; simpl; [reflexivity | now rewrite IH]. Qed.

Lemma broadcast_same {A B X} (op : A -> B -> X) xs ys :
  length xs = length ys -> broadcast op xs ys = Some (zip_with op xs ys).
Proof. intros H; unfold broadcast; rewrite H, Nat.eqb_refl; reflexivity. Qed.

Lemma nth_error_map_some {A B} (g : A -> B) l i a :
  nth_error l i = Some a -> nth_error (map g l) i = Some (g a).
Proof. intros H; rewrite nth_error_map, H; reflexivity. Qed.

(** ** The monad *)

Lemma deref_some (w : world) (r : ref) (n : Network) :
  nth_error (heap w) r = Some n -> deref r w = (inr n, w).
Proof. intros H; unfold deref; rewrite H; reflexivity. Qed.

Lemma bind_ok {A B} (m : M A) (k : A -> M B) w a w' :
  m w = (inr a, w') -> bind m k w = k a w'.
Proof. intros H; unfold bind; rewrite H; reflexivity. Qed.

Lemma bind_err {A B} (m : M A) (k : A -> M B) w e w' :
  m w = (inl e, w') -> bind m k w = (inl e, w').
Proof. intros H; unfold bind; rewrite H; reflexivity. Qed.

(* ================================================================== *)
(** ** The reflection combiner *)

Lemma combined_length (rho_cable rho_LNA : list C) :
  length rho_cable = length rho_LNA ->
  length (combined rho_cable rho_LNA) = length rho_cable.
Proof.
  intros H; unfold combined.
  rewrite zip_with_length; rewrite !length_map; auto.
  now rewrite zip_with_length.
Qed.

Lemma combined_nth (rho_cable rho_LNA : list C) i zc zl :
  nth_error rho_cable i = Some zc -> nth_error rho_LNA i = Some zl ->
  nth_error (combined rho_cable rho_LNA) i
    = Some (Cdiv (Cmul zc C1) (Csub C1 (Cmul zc zl))).
Proof.
  intros Hc Hl; unfold combined.
  apply zip_with_nth.
  - apply nth_error_map_some with (g := fun z => Cmul z C1); exact Hc.
  - apply nth_error_map_some with (g := fun z => Csub C1 z).
    apply zip_with_nth; assumption.
Qed.

Lemma LNA_total_reflection_run
  (w : world) (rho_cable_ntwk rho_LNA_ntwk : ref) (cable lna : Network) :
  nth_error (heap w) rho_cable_ntwk = Some cable ->
  nth_error (heap w) rho_LNA_ntwk = Some lna ->
  length (s cable) = length (s lna) ->
  LNA_total_reflection rho_cable_ntwk rho_LNA_ntwk w
    = (inr (length (heap w)),
       mkWorld (heap w ++ [mkNetwork (f cable) (combined (s cable) (s lna))])
         (fs w) (cwd w) (trace w)).
Proof.
  intros Hc Hl Hs.
  unfold LNA_total_reflection, bind.
  rewrite (deref_some _ _ _ Hc), (deref_some _ _ _ Hl).
  rewrite (broadcast_same _ _ _ Hs); cbn [lift_opt ret].
  rewrite broadcast_same; [reflexivity |].
  rewrite !length_map. symmetry; now apply zip_with_length.
Qed.

(** C1.  For two responses on equal-length grids the combiner returns a
    new response on the cable's frequency grid whose value at every
    index [i] is [rho_cable[i] / (1 - rho_cable[i] * rho_LNA[i])] in
    complex arithmetic; where [rho_LNA[i]] is zero the value is
    [rho_cable[i]] itself. *)
Theorem LNA_total_reflection_formula
  (w : world) (rho_cable_ntwk rho_LNA_ntwk : ref) (cable lna : Network) :
  nth_error (heap w) rho_cable_ntwk = Some cable ->
  nth_error (heap w) rho_LNA_ntwk = Some lna ->
  wf_Network cable -> wf_Network lna ->
  length (f cable) = length (f lna) ->
  exists out : Network,
    LNA_total_reflection rho_cable_ntwk rho_LNA_ntwk w
      = (inr (length (heap w)),
         mkWorld (heap w ++ [out]) (fs w) (cwd w) (trace w)) /\
    f out = f cable /\
    wf_Network out /\
    forall i zc zl,
      nth_error (s cable) i = Some zc -> nth_error (s lna) i = Some zl ->
      nth_error (s out) i = Some (Cdiv zc (Csub C1 (Cmul zc zl))) /\
      (zl = C0 -> nth_error (s out) i = Some zc).
Proof.
  intros Hc Hl Wc Wl Hf.
  assert (Hs : length (s cable) = length (s lna))
    by (unfold wf_Network in *; congruence).
  exists (mkNetwork (f cable) (combined (s cable) (s lna))).
  split; [| split; [| split]].
  - now apply LNA_total_reflection_run.
  - reflexivity.
  - unfold wf_Network in *; simpl. rewrite combined_length; congruence.
  - intros i zc zl Hzc Hzl; simpl.
    rewrite (combined_nth _ _ _ _ _ Hzc Hzl), Cmul_1_r.
    split; [reflexivity |].
    intros ->. now rewrite Cmul_0_r, Csub_0_r, Cdiv_1_r.
Qed.

(* ================================================================== *)
(** ** Paths and the ordered dict *)

Lemma rfind_app_sep (c : ascii) (d name : string) :
  rfind c name = None ->
  rfind c (d ++ String c name)%string = Some (String.length d).
Proof.
  intros H; induction d as [|a d IH]; simpl.
  - rewrite H, Ascii.eqb_refl; reflexivity.
  - rewrite IH; reflexivity.
Qed.

Lemma drop_app (d name : string) :
  drop (String.length d) (d ++ name)%string = name.
Proof. induction d as [|a d IH]; simpl; [now destruct name | exact IH]. Qed.

Lemma append_cons (d : string) (c : ascii) (name : string) :
  (d ++ String c name)%string = ((d ++ String c "") ++ name)%string.
Proof. induction d as [|a d IH]; simpl; [reflexivity | now rewrite IH]. Qed.

Lemma length_append_one (d : string) (c : ascii) :
  String.length (d ++ String c "")%string = S (String.length d).
Proof. induction d as [|a d IH]; simpl; [reflexivity | now rewrite IH]. Qed.

(** [basename] returns the text after the last separator. *)
Lemma pbase_segment (d name : string) :
  rfind sep name = None -> pbase (d ++ "/" ++ name)%string = name.
Proof.
  intros H; unfold pbase.
  change ("/" ++ name)%string with (String sep name).
  rewrite (rfind_app_sep _ d _ H).
  rewrite append_cons, <- (length_append_one d sep).
  apply drop_app.
Qed.

Lemma pbase_no_sep (p : string) : rfind sep p = None -> pbase p = p.
Proof. intros H; unfold pbase; rewrite H; reflexivity. Qed.

Lemma dict_get_set {V} (k k' : string) (v : V) (d : dict V) :
  dict_get k (dict_set k' v d)
    = if String.eqb k' k then Some v else dict_get k d.
Proof.
  induction d as [|[k0 v0] d IH]; simpl.
  - reflexivity.
  - destruct (String.eqb k0 k') eqn:E0; simpl.
    + apply String.eqb_eq in E0; subst k0.
      destruct (String.eqb k' k); reflexivity.
    + destruct (String.eqb k0 k) eqn:E1.
      * apply String.eqb_eq in E1; subst k0.
        rewrite String.eqb_sym, E0; reflexivity.
      * exact IH.
Qed.

Lemma dict_get_assign (labels : list string) (base : ref) (d : dict ref) k :
  dict_get k (assign labels base d)
    = match last_index k labels with
      | Some j => Some (base + j)%nat
      | None => dict_get k d
      end.
Proof.
  revert base d; induction labels as [|l ls IH]; intros base d; simpl.
  - reflexivity.
  - rewrite IH. destruct (last_index k ls) as [j|].
    + f_equal; lia.
    + rewrite dict_get_set. destruct (String.eqb l k).
      * f_equal; lia.
      * reflexivity.
Qed.

(** [last_index] is the greatest position that holds the label. *)
Lemma last_index_spec (k : string) (labels : list string) (j : nat) :
  nth_error labels j = Some k ->
  (forall j' l, (j < j')%nat -> nth_error labels j' = Some l -> l <> k) ->
  last_index k labels = Some j.
Proof.
  revert j; induction labels as [|l ls IH]; intros [|j] Hj Hlast;
    simpl in *; try discriminate.
  - injection Hj as ->.
    destruct (last_index k ls) as [i|] eqn:E.
    + exfalso.
      assert (Hin : exists l, nth_error ls i = Some l /\ l = k).
      { clear -E. revert i E; induction ls as [|a ls IH]; intros i E;
          simpl in E; [discriminate |].
        destruct (last_index k ls) as [i'|] eqn:E'.
        - injection E as <-. destruct (IH i' eq_refl) as (l & H1 & H2).
          exists l; split; assumption.
        - destruct (String.eqb a k) eqn:Ea; [| discriminate].
          injection E as <-. exists a; split;
            [reflexivity | now apply String.eqb_eq]. }
      destruct Hin as (l0 & H1 & H2).
      apply (Hlast (S i) l0); [lia | exact H1 | exact H2].
    + rewrite String.eqb_refl; reflexivity.
  - rewrite (IH j Hj); [reflexivity |].
    intros j' l0 Hlt Hn. apply (Hlast (S j') l0); [lia | exact Hn].
Qed.

(* ================================================================== *)
(** ** The loader *)

Lemma Network_eta (n : Network) : mkNetwork (f n) (s n) = n.
Proof. destruct n; reflexivity. Qed.

Lemma load_pairs_run (pairs : list (string * string)) (nets : list Network)
  (d : dict ref) (w : world) :
  readable w (map fst pairs) nets ->
  load_pairs pairs d w
    = (inr (assign (map snd pairs) (length (heap w)) d),
       mkWorld (heap w ++ nets) (fs w) (cwd w) (trace w)).
Proof.
  unfold readable.
  revert nets d w; induction pairs as [|[file label] rest IH];
    intros nets d w H; inversion H; subst; simpl.
  - rewrite app_nil_r. destruct w; reflexivity.
  - unfold bind, Network_from_file.
    match goal with Hx : dict_get _ _ = Some _ |- _ => rewrite Hx end.
    unfold new_Network. rewrite Network_eta.
    rewrite IH with (nets := l').
    + simpl. rewrite length_app, <- app_assoc; simpl.
      replace (length (heap w) + 1)%nat with (S (length (heap w))) by lia.
      reflexivity.
    + simpl. assumption.
Qed.

Lemma last_index_in (k : string) (labels : list string) :
  last_index k labels <> None <-> In k labels.
Proof.
  induction labels as [|l ls IH]; simpl.
  - split; [intros H; now elim H | intros []].
  - destruct (last_index k ls) as [j|].
    + split; [intros _; right; apply IH; discriminate | discriminate].
    + destruct (String.eqb l k) eqn:E.
      * apply String.eqb_eq in E. split; [now left | discriminate].
      * apply String.eqb_neq in E. split; [intros H; now elim H |].
        intros [H | H]; [contradiction |].
        apply IH in H. now elim H.
Qed.

Lemma map_fst_combine {A B} (a : list A) (b : list B) :
  map fst (combine a b) = firstn (Nat.min (length a) (length b)) a.
Proof.
  revert b; induction a as [|x a IH]; intros [|y b]; simpl; try reflexivity.
  now rewrite IH.
Qed.

Lemma map_snd_combine {A B} (a : list A) (b : list B) :
  map snd (combine a b) = firstn (Nat.min (length a) (length b)) b.
Proof.
  revert b; induction a as [|x a IH]; intros [|y b]; simpl; try reflexivity.
  now rewrite IH.
Qed.

Lemma load_s1p_run (w : world) (files : list string)
  (labels : option (list string)) (nets : list Network) :
  let ls := match labels with None => map pbase files | Some l => l end in
  let n := Nat.min (length files) (length ls) in
  readable w (firstn n files) nets ->
  load_s1p files labels w
    = (inr (assign (firstn n ls) (length (heap w)) []),
       mkWorld (heap w ++ nets) (fs w) (cwd w) (trace w)).
Proof.
  intros ls n H. unfold load_s1p. fold ls.
  rewrite load_pairs_run with (nets := nets).
  - now rewrite map_snd_combine.
  - now rewrite map_fst_combine.
Qed.

(** C7.  With the labels omitted every label is the final path segment
    of its file, extension included; the files are loaded in order, so
    of several files with one final segment the last one is the entry
    found under that key. *)
Theorem load_s1p_basename_last_wins
  (w : world) (files : list string) (nets : list Network) :
  readable w files nets ->
  exists d : dict ref,
    load_s1p files None w
      = (inr d, mkWorld (heap w ++ nets) (fs w) (cwd w) (trace w)) /\
    (forall k, dict_get k d <> None <-> In k (map pbase files)) /\
    (forall i j fi fj nj,
        nth_error files i = Some fi ->
        nth_error files j = Some fj ->
        nth_error nets j = Some nj ->
        pbase fi = pbase fj ->
        (forall j' f', (j < j')%nat -> nth_error files j' = Some f' ->
                       pbase f' <> pbase fj) ->
        dict_get (pbase fi) d = Some (length (heap w) + j)%nat /\
        nth_error (heap w ++ nets) (length (heap w) + j) = Some nj) /\
    (forall dir name,
        rfind sep name = None -> pbase (dir ++ "/" ++ name)%string = name).
Proof.
  intros H.
  exists (assign (map pbase files) (length (heap w)) []).
  split; [| split; [| split]].
  - pose proof (load_s1p_run w files None nets) as Hrun.
    cbv beta iota zeta in Hrun.
    rewrite length_map, Nat.min_id in Hrun.
    rewrite firstn_all in Hrun.
    rewrite firstn_all2 in Hrun by (rewrite length_map; lia).
    exact (Hrun H).
  - intros k. rewrite dict_get_assign.
    rewrite <- last_index_in.
    destruct (last_index k (map pbase files)); simpl;
      split; intros Hk; try discriminate; exact Hk.
  - intros i j fi fj nj Hi Hj Hn Heq Hlast.
    split.
    + rewrite dict_get_assign, Heq.
      rewrite (last_index_spec (pbase fj) (map pbase files) j); auto.
      * now apply nth_error_map_some.
      * intros j' l Hlt Hl.
        rewrite nth_error_map in Hl.
        destruct (nth_error files j') as [f'|] eqn:E; [| discriminate].
        injection Hl as <-. now apply (Hlast j' f').
    + rewrite nth_error_app2 by lia.
      replace (length (heap w) + j - length (heap w))%nat with j by lia.
      exact Hn.
  - intros dir name. apply pbase_segment.
Qed.

Lemma load_s1p_basename_last_wins_witness :
  exists d : dict ref,
    load_s1p ["/data/run1/lna.s1p"; "/data/run2/lna.s1p"] None lab
      = (inr d,
         mkWorld (heap lab ++ [lna_data; cable_data]) (fs lab) (cwd lab)
           (trace lab)) /\
    (forall k, dict_get k d <> None <->
               In k (map pbase ["/data/run1/lna.s1p"; "/data/run2/lna.s1p"])) /\
    (forall i j fi fj nj,
        nth_error ["/data/run1/lna.s1p"; "/data/run2/lna.s1p"] i = Some fi ->
        nth_error ["/data/run1/lna.s1p"; "/data/run2/lna.s1p"] j = Some fj ->
        nth_error [lna_data; cable_data] j = Some nj ->
        pbase fi = pbase fj ->
        (forall j' f', (j < j')%nat ->
           nth_error ["/data/run1/lna.s1p"; "/data/run2/lna.s1p"] j'
             = Some f' ->
           pbase f' <> pbase fj) ->
        dict_get (pbase fi) d = Some (length (heap lab) + j)%nat /\
        nth_error (heap lab ++ [lna_data; cable_data]) (length (heap lab) + j)
          = Some nj) /\
    (forall dir name,
        rfind sep name = None -> pbase (dir ++ "/" ++ name)%string = name).
Proof.
  apply (load_s1p_basename_last_wins lab
           ["/data/run1/lna.s1p"; "/data/run2/lna.s1p"]
           [lna_data; cable_data]).
  repeat constructor.
Defined.

(** The two files of the sample collide: one entry, holding the second
    file's data. *)
Example load_s1p_collision :
  fst (load_s1p ["/data/run1/lna.s1p"; "/data/run2/lna.s1p"] None lab)
    = inr [("lna.s1p", 3%nat)].
Proof. reflexivity. Qed.

(** The zip of the comprehension stops at the shorter list. *)
Example load_s1p_short_labels :
  length ["cable"] <> length ["/data/cable.s1p"; "/data/run1/lna.s1p"] /\
  load_s1p ["/data/cable.s1p"; "/data/run1/lna.s1p"] (Some ["cable"]) lab
    = (inr [("cable", 2%nat)],
       mkWorld (heap lab ++ [cable_data]) (fs lab) (cwd lab) (trace lab)).
Proof. split; [discriminate | reflexivity]. Qed.

(** C3, as stated, fails: a label list shorter than the file list does
    not make the loader raise. *)
Lemma load_s1p_length_mismatch_counterexample :
  ~ (forall (w : world) (files labels : list string),
        length labels <> length files ->
        exists e w', load_s1p files (Some labels) w = (inl e, w')).
Proof.
  intros H.
  destruct (H lab ["/data/cable.s1p"; "/data/run1/lna.s1p"] ["cable"])
    as (e & w' & He); [discriminate |].
  discriminate He.
Qed.

(** C3, amended.  With a label list of any length the loader pairs files
    and labels by position up to the shorter of the two lists and raises
    no length error: when the paired files parse, it returns the mapping
    of that pairing, and the surplus files or labels are ignored. *)
Theorem load_s1p_pairs_up_to_shorter
  (w : world) (files labels : list string) (nets : list Network) :
  readable w (firstn (Nat.min (length files) (length labels)) files) nets ->
  exists d : dict ref,
    load_s1p files (Some labels) w
      = (inr d, mkWorld (heap w ++ nets) (fs w) (cwd w) (trace w)) /\
    d = assign (firstn (Nat.min (length files) (length labels)) labels)
          (length (heap w)) [] /\
    (forall k, dict_get k d <> None <->
               In k (firstn (Nat.min (length files) (length labels)) labels)).
Proof.
  intros H.
  eexists; split; [| split; [reflexivity |]].
  - exact (load_s1p_run w files (Some labels) nets H).
  - intros k. rewrite dict_get_assign, <- last_index_in.
    destruct (last_index k _); simpl;
      split; intros Hk; try discriminate; exact Hk.
Qed.

Lemma load_s1p_pairs_up_to_shorter_witness :
  exists d : dict ref,
    load_s1p ["/data/cable.s1p"; "/data/run1/lna.s1p"] (Some ["cable"]) lab
      = (inr d, mkWorld (heap lab ++ [cable_data]) (fs lab) (cwd lab)
                  (trace lab)) /\
    d = assign ["cable"] (length (heap lab)) [] /\
    (forall k, dict_get k d <> None <-> In k ["cable"]).
Proof.
  apply (load_s1p_pairs_up_to_shorter lab
           ["/data/cable.s1p"; "/data/run1/lna.s1p"] ["cable"] [cable_data]).
  repeat constructor.
Defined.

(* ================================================================== *)
(** ** The power converter *)










(* ================================================================== *)
(** ** The model fitters *)

Lemma phase_argument (x t : R) :
  Cmul (Cmul (Cmul (Cmul Ci (RtoC 2)) (RtoC PI)) (RtoC x)) (RtoC t)
    = mkC 0 (2 * PI * x * t).
Proof. apply C_eq; simpl; ring. Qed.

Lemma np_phase_pointwise (freq : list R) (t : R) :
  np_phase freq t = map (fun x => Cexp (mkC 0 (2 * PI * x * t))) freq.
Proof.
  unfold np_phase. rewrite !map_map.
  apply map_ext; intros x. now rewrite phase_argument.
Qed.

Lemma np_decay_pointwise (freq : list R) (alpha : R) :
  np_decay freq alpha = map (fun x => exp (- alpha * x)) freq.
Proof. unfold np_decay; now rewrite map_map. Qed.

(** The array the delay fitter synthesises is the delay model on the
    grid. *)
Lemma delay_synthesis (A : C) (t : R) (freq : list R) :
  map (fun e => Cmul A e) (np_phase freq t) = map (delay_model A t) freq.
Proof. rewrite np_phase_pointwise, map_map; reflexivity. Qed.

(** The array inside the decay fitter's [reflection_model]. *)
Lemma decay_model_array (A : C) (t alpha : R) (freq : list R) :
  zip_with Cmul (map (fun d => Cmul (RtoC d) A) (np_decay freq alpha))
    (np_phase freq t)
  = map (decay_model A t alpha) freq.
Proof.
  rewrite np_phase_pointwise, np_decay_pointwise, map_map, zip_with_map.
  apply map_ext; intros x. unfold decay_model, delay_model.
  apply C_eq; simpl; ring.
Qed.

(** The array the decay fitter synthesises. *)
Lemma decay_synthesis (A : C) (t alpha : R) (freq : list R) :
  zip_with Cmul (map (fun d => Cmul A (RtoC d)) (np_decay freq alpha))
    (np_phase freq t)
  = map (decay_model A t alpha) freq.
Proof.
  rewrite np_phase_pointwise, np_decay_pointwise, map_map, zip_with_map.
  apply map_ext; intros x. unfold decay_model, delay_model.
  apply C_eq; simpl; ring.
Qed.

Lemma reflection_model_delay_spec (freq : list R) (ar ai t : R) :
  reflection_model_delay freq (ar, ai, t)
    = concat_real_imag (map (delay_model (amplitude ar ai) t) freq).
Proof. unfold reflection_model_delay. now rewrite delay_synthesis. Qed.

Lemma reflection_model_decay_spec (freq : list R) (ar ai t alpha : R) :
  reflection_model_decay freq (ar, ai, t, alpha)
    = concat_real_imag (map (decay_model (amplitude ar ai) t alpha) freq).
Proof. unfold reflection_model_decay. now rewrite decay_model_array. Qed.

Lemma save_fitted_run (r : ref) (save_path : option string) (w : world) :
  save_fitted r save_path w = (fitted_outcome tt save_path, w).
Proof. destruct save_path; reflexivity. Qed.

Lemma amplitude_parts (ar ai : R) :
  re (amplitude ar ai) = ar /\ im (amplitude ar ai) = ai.
Proof. split; simpl; ring. Qed.

Section FittingProperties.

Variable curve_fit :
  forall {P : Type},
    (list R -> P -> list R) -> list R -> list R -> P -> option P.

Lemma fit_reflection_coeff_run (w : world) (r : ref) (ntwk : Network)
  (gr gi gd : R) (save_path : option string) (p0 p1 p2 : R) :
  nth_error (heap w) r = Some ntwk ->
  curve_fit reflection_model_delay (f ntwk) (concat_real_imag (s ntwk))
    (gr, gi, gd) = Some (p0, p1, p2) ->
  fit_reflection_coeff (@curve_fit) r gr gi gd save_path w
    = (fitted_outcome (amplitude p0 p1, p2, length (heap w)) save_path,
       fitted_world w
         (mkNetwork (f ntwk)
            (map (delay_model (amplitude p0 p1) p2) (f ntwk)))).
Proof.
  intros Hr Hfit. unfold fit_reflection_coeff.
  rewrite (bind_ok _ _ _ _ _ (deref_some _ _ _ Hr)). cbv zeta.
  rewrite Hfit. cbn [lift_opt].
  unfold bind at 1. cbn [ret].
  rewrite delay_synthesis.
  unfold bind, new_Network. rewrite save_fitted_run.
  destruct save_path; reflexivity.
Qed.

Lemma fit_exp_decay_run (w : world) (r : ref) (ntwk : Network)
  (gr gi gd ga : R) (save_path : option string) (p0 p1 p2 p3 : R) :
  nth_error (heap w) r = Some ntwk ->
  curve_fit reflection_model_decay (f ntwk) (concat_real_imag (s ntwk))
    (gr, gi, gd, ga) = Some (p0, p1, p2, p3) ->
  fit_exp_decay (@curve_fit) r gr gi gd ga save_path w
    = (fitted_outcome (amplitude p0 p1, p2, p3, length (heap w)) save_path,
       fitted_world w
         (mkNetwork (f ntwk)
            (map (decay_model (amplitude p0 p1) p2 p3) (f ntwk)))).
Proof.
  intros Hr Hfit. unfold fit_exp_decay.
  rewrite (bind_ok _ _ _ _ _ (deref_some _ _ _ Hr)). cbv zeta.
  rewrite Hfit. cbn [lift_opt].
  unfold bind at 1. cbn [ret].
  rewrite decay_synthesis.
  unfold bind, new_Network. rewrite save_fitted_run.
  destruct save_path; reflexivity.
Qed.

Lemma fit_reflection_coeff_fail (w : world) (r : ref) (ntwk : Network)
  (gr gi gd : R) (save_path : option string) :
  nth_error (heap w) r = Some ntwk ->
  curve_fit reflection_model_delay (f ntwk) (concat_real_imag (s ntwk))
    (gr, gi, gd) = None ->
  fit_reflection_coeff (@curve_fit) r gr gi gd save_path w
    = (inl RuntimeError, w).
Proof.
  intros Hr Hfit. unfold fit_reflection_coeff.
  rewrite (bind_ok _ _ _ _ _ (deref_some _ _ _ Hr)). cbv zeta.
  rewrite Hfit. reflexivity.
Qed.

Lemma fit_exp_decay_fail (w : world) (r : ref) (ntwk : Network)
  (gr gi gd ga : R) (save_path : option string) :
  nth_error (heap w) r = Some ntwk ->
  curve_fit reflection_model_decay (f ntwk) (concat_real_imag (s ntwk))
    (gr, gi, gd, ga) = None ->
  fit_exp_decay (@curve_fit) r gr gi gd ga save_path w
    = (inl RuntimeError, w).
Proof.
  intros Hr Hfit. unfold fit_exp_decay.
  rewrite (bind_ok _ _ _ _ _ (deref_some _ _ _ Hr)). cbv zeta.
  rewrite Hfit. reflexivity.
Qed.

End FittingProperties.

Lemma fitted_world_new (w : world) (out : Network) :
  nth_error (heap (fitted_world w out)) (length (heap w)) = Some out.
Proof.
  simpl. rewrite nth_error_app2, Nat.sub_diag by lia. reflexivity.
Qed.

(** C2.  Both fitters hand the solver the input's own frequency grid,
    the real parts followed by the imaginary parts of the measured
    spectrum, and a model function that returns the same concatenation
    of [A * exp(i 2 pi f tau)] (times [exp(-alpha f)] for the decay
    variant) with [A = A_real + i A_imag]; when the solver returns
    parameters, the network the fitter builds, and returns whenever it
    returns, is that model at the fitted parameters on the input grid.
    The fitter returns when no save path is given. *)
Theorem fitters_residual_and_synthesis
  (curve_fit : forall P : Type,
      (list R -> P -> list R) -> list R -> list R -> P -> option P)
  (w : world) (r : ref) (ntwk : Network) (save_path : option string) :
  nth_error (heap w) r = Some ntwk ->
  (forall ar ai, amplitude ar ai = mkC ar ai) /\
  concat_real_imag (s ntwk) = map re (s ntwk) ++ map im (s ntwk) /\
  (forall freq ar ai t,
      reflection_model_delay freq (ar, ai, t)
        = map re (map (delay_model (mkC ar ai) t) freq)
          ++ map im (map (delay_model (mkC ar ai) t) freq)) /\
  (forall freq ar ai t alpha,
      reflection_model_decay freq (ar, ai, t, alpha)
        = map re (map (decay_model (mkC ar ai) t alpha) freq)
          ++ map im (map (decay_model (mkC ar ai) t alpha) freq)) /\
  (forall gr gi gd,
      match curve_fit _ reflection_model_delay (f ntwk)
              (concat_real_imag (s ntwk)) (gr, gi, gd) with
      | Some (p0, p1, p2) =>
          fit_reflection_coeff curve_fit r gr gi gd save_path w
            = (fitted_outcome (mkC p0 p1, p2, length (heap w)) save_path,
               fitted_world w
                 (mkNetwork (f ntwk)
                    (map (delay_model (mkC p0 p1) p2) (f ntwk)))) /\
          fit_reflection_coeff curve_fit r gr gi gd None w
            = (inr (mkC p0 p1, p2, length (heap w)),
               fitted_world w
                 (mkNetwork (f ntwk)
                    (map (delay_model (mkC p0 p1) p2) (f ntwk))))
      | None =>
          fit_reflection_coeff curve_fit r gr gi gd save_path w
            = (inl RuntimeError, w)
      end) /\
  (forall gr gi gd ga,
      match curve_fit _ reflection_model_decay (f ntwk)
              (concat_real_imag (s ntwk)) (gr, gi, gd, ga) with
      | Some (p0, p1, p2, p3) =>
          fit_exp_decay curve_fit r gr gi gd ga save_path w
            = (fitted_outcome (mkC p0 p1, p2, p3, length (heap w)) save_path,
               fitted_world w
                 (mkNetwork (f ntwk)
                    (map (decay_model (mkC p0 p1) p2 p3) (f ntwk)))) /\
          fit_exp_decay curve_fit r gr gi gd ga None w
            = (inr (mkC p0 p1, p2, p3, length (heap w)),
               fitted_world w
                 (mkNetwork (f ntwk)
                    (map (decay_model (mkC p0 p1) p2 p3) (f ntwk))))
      | None =>
          fit_exp_decay curve_fit r gr gi gd ga save_path w
            = (inl RuntimeError, w)
      end) /\
  (forall out, nth_error (heap (fitted_world w out)) (length (heap w))
               = Some out).
Proof.
  intros Hr.
  assert (HA : forall ar ai, amplitude ar ai = mkC ar ai).
  { intros ar ai. apply C_eq; apply amplitude_parts. }
  split; [exact HA |].
  split; [reflexivity |].
  split; [intros; rewrite <- HA; apply reflection_model_delay_spec |].
  split; [intros; rewrite <- HA; apply reflection_model_decay_spec |].
  split; [| split].
  - intros gr gi gd.
    destruct (curve_fit _ reflection_model_delay (f ntwk)
                (concat_real_imag (s ntwk)) (gr, gi, gd))
      as [[[p0 p1] p2]|] eqn:E.
    + rewrite <- HA. split.
      * now apply fit_reflection_coeff_run
          with (gr := gr) (gi := gi) (gd := gd).
      * exact (fit_reflection_coeff_run curve_fit w r ntwk gr gi gd None
                 p0 p1 p2 Hr E).
    + apply fit_reflection_coeff_fail with (ntwk := ntwk); assumption.
  - intros gr gi gd ga.
    destruct (curve_fit _ reflection_model_decay (f ntwk)
                (concat_real_imag (s ntwk)) (gr, gi, gd, ga))
      as [[[[p0 p1] p2] p3]|] eqn:E.
    + rewrite <- HA. split.
      * now apply fit_exp_decay_run
          with (gr := gr) (gi := gi) (gd := gd) (ga := ga).
      * exact (fit_exp_decay_run curve_fit w r ntwk gr gi gd ga None
                 p0 p1 p2 p3 Hr E).
    + apply fit_exp_decay_fail with (ntwk := ntwk); assumption.
  - apply fitted_world_new.
Qed.

Lemma fitters_residual_and_synthesis_witness :
  fit_exp_decay echo_fit 0%nat (1 / 2) 0 1 0 None lab
    = (inr (mkC (1 / 2) 0, 1, 0, length (heap lab)),
       fitted_world lab
         (mkNetwork (f cable_data)
            (map (decay_model (mkC (1 / 2) 0) 1 0) (f cable_data)))).
Proof.
  exact (proj2 (proj1 (proj2 (proj2 (proj2 (proj2 (proj2
           (fitters_residual_and_synthesis echo_fit lab 0%nat cable_data
              None eq_refl)))))) (1 / 2) 0 1 0)).
Defined.

(** C8.  The code as written never writes the synthesised response:
    with a save path both fitters call [write_touchstone] with the
    keyword [overwrite], which the method does not have, so the call
    raises [TypeError] once the synthesised network has been built, and
    the file system and the trace are as they were; without a save path
    the fitter returns and writes nothing either. *)
Theorem fitters_raise_on_save_path
  (curve_fit : forall P : Type,
      (list R -> P -> list R) -> list R -> list R -> P -> option P)
  (w : world) (r : ref) (ntwk : Network) :
  nth_error (heap w) r = Some ntwk ->
  (forall gr gi gd popt,
      curve_fit _ reflection_model_delay (f ntwk)
        (concat_real_imag (s ntwk)) (gr, gi, gd) = Some popt ->
      (exists res w',
          fit_reflection_coeff curve_fit r gr gi gd None w = (inr res, w') /\
          fs w' = fs w /\ trace w' = trace w) /\
      (forall p, exists w',
          fit_reflection_coeff curve_fit r gr gi gd (Some p) w
            = (inl TypeError, w') /\
          fs w' = fs w /\ trace w' = trace w)) /\
  (forall gr gi gd ga popt,
      curve_fit _ reflection_model_decay (f ntwk)
        (concat_real_imag (s ntwk)) (gr, gi, gd, ga) = Some popt ->
      (exists res w',
          fit_exp_decay curve_fit r gr gi gd ga None w = (inr res, w') /\
          fs w' = fs w /\ trace w' = trace w) /\
      (forall p, exists w',
          fit_exp_decay curve_fit r gr gi gd ga (Some p) w
            = (inl TypeError, w') /\
          fs w' = fs w /\ trace w' = trace w)).
Proof.
  intros Hr. split.
  - intros gr gi gd [[p0 p1] p2] Hfit. split.
    + do 2 eexists. split.
      * apply (fit_reflection_coeff_run curve_fit w r ntwk gr gi gd None
                 p0 p1 p2 Hr Hfit).
      * split; reflexivity.
    + intros p. eexists. split.
      * apply (fit_reflection_coeff_run curve_fit w r ntwk gr gi gd (Some p)
                 p0 p1 p2 Hr Hfit).
      * split; reflexivity.
  - intros gr gi gd ga [[[p0 p1] p2] p3] Hfit. split.
    + do 2 eexists. split.
      * apply (fit_exp_decay_run curve_fit w r ntwk gr gi gd ga None
                 p0 p1 p2 p3 Hr Hfit).
      * split; reflexivity.
    + intros p. eexists. split.
      * apply (fit_exp_decay_run curve_fit w r ntwk gr gi gd ga (Some p)
                 p0 p1 p2 p3 Hr Hfit).
      * split; reflexivity.
Qed.

Lemma fitters_raise_on_save_path_witness :
  (exists res w',
      fit_reflection_coeff echo_fit 0%nat (1 / 2) 0 1 None lab
        = (inr res, w') /\
      fs w' = fs lab /\ trace w' = trace lab) /\
  (forall p, exists w',
      fit_reflection_coeff echo_fit 0%nat (1 / 2) 0 1 (Some p) lab
        = (inl TypeError, w') /\
      fs w' = fs lab /\ trace w' = trace lab).
Proof.
  exact (proj1 (fitters_raise_on_save_path echo_fit lab 0%nat cable_data
                  eq_refl)
           (1 / 2) 0 1 (1 / 2, 0, 1) eq_refl).
Defined.

(** The failing call on the sample machine. *)
Example fit_with_save_path_raises :
  fst (fit_reflection_coeff echo_fit 0%nat (1 / 2) 0 1 (Some "fit.s1p") lab)
    = inl TypeError.
Proof. reflexivity. Qed.

(* ================================================================== *)
(** ** Footprints of the primitives *)

Section Keeps.

Variable I : world -> world -> Prop.
Hypothesis I_refl : forall w, I w w.
Hypothesis I_trans : forall w1 w2 w3, I w1 w2 -> I w2 w3 -> I w1 w3.

Lemma keeps_ret {A} (a : A) : keeps I (ret a).
Proof. intros w; apply I_refl. Qed.

Lemma keeps_raise {A} (e : exn) : keeps I (@raise A e).
Proof. intros w; apply I_refl. Qed.

Lemma keeps_lift_opt {A} (e : exn) (o : option A) : keeps I (lift_opt e o).
Proof. destruct o; [apply keeps_ret | apply keeps_raise]. Qed.

Lemma keeps_bind {A B} (m : M A) (k : A -> M B) :
  keeps I m -> (forall a, keeps I (k a)) -> keeps I (bind m k).
Proof.
  intros Hm Hk w. unfold bind.
  specialize (Hm w). destruct (m w) as [[e|a] w1]; simpl in *.
  - exact Hm.
  - apply I_trans with w1; [exact Hm | apply Hk].
Qed.

Lemma keeps_when (b : bool) (m : M unit) : keeps I m -> keeps I (when b m).
Proof. destruct b; simpl; [auto | intros _; apply keeps_ret]. Qed.

Lemma keeps_for_each {A} (xs : list A) (body : A -> M unit) :
  (forall x, keeps I (body x)) -> keeps I (for_each xs body).
Proof.
  intros Hb; induction xs as [|x xs IH]; simpl.
  - apply keeps_ret.
  - apply keeps_bind; [apply Hb | intros _; exact IH].
Qed.

Lemma keeps_deref (r : ref) : keeps I (deref r).
Proof. intros w; unfold deref. apply keeps_lift_opt. Qed.

Lemma keeps_getcwd : keeps I getcwd.
Proof. intros w; apply I_refl. Qed.

Lemma keeps_path_exists (p : string) : keeps I (path_exists p).
Proof. intros w; apply I_refl. Qed.

Lemma keeps_assert (c : bool) (msg : string) : keeps I (assert c msg).
Proof. destruct c; [apply keeps_ret | apply keeps_raise]. Qed.

Lemma keeps_getitem {V} (d : dict V) (k : string) : keeps I (getitem d k).
Proof. apply keeps_lift_opt. Qed.

End Keeps.

Lemma heap_grows_refl (w : world) : heap_grows w w.
Proof. exists []; now rewrite app_nil_r. Qed.

Lemma heap_grows_trans (w1 w2 w3 : world) :
  heap_grows w1 w2 -> heap_grows w2 w3 -> heap_grows w1 w3.
Proof.
  intros [a Ha] [b Hb]. exists (a ++ b). now rewrite Hb, Ha, app_assoc.
Qed.

Lemma heap_same_refl (w : world) : heap_same w w.
Proof. reflexivity. Qed.

Lemma heap_same_trans (w1 w2 w3 : world) :
  heap_same w1 w2 -> heap_same w2 w3 -> heap_same w1 w3.
Proof. unfold heap_same; congruence. Qed.

Lemma no_write_refl (w : world) : no_write w w.
Proof. split; [reflexivity | exists []; now rewrite app_nil_r]. Qed.

Lemma no_write_trans (w1 w2 w3 : world) :
  no_write w1 w2 -> no_write w2 w3 -> no_write w1 w3.
Proof.
  intros [F1 (e1 & T1 & N1)] [F2 (e2 & T2 & N2)]. split; [congruence |].
  exists (e1 ++ e2). split.
  - now rewrite T2, T1, app_assoc.
  - rewrite forallb_app, N1, N2; reflexivity.
Qed.

Lemma heap_same_grows (w w' : world) : heap_same w w' -> heap_grows w w'.
Proof. intros H; exists []; now rewrite app_nil_r. Qed.

Lemma heap_grows_lookup (w w' : world) (r : ref) (n : Network) :
  heap_grows w w' ->
  nth_error (heap w) r = Some n -> nth_error (heap w') r = Some n.
Proof.
  intros [added H] Hr. rewrite H, nth_error_app1; [exact Hr |].
  apply nth_error_Some; congruence.
Qed.

Lemma heap_same_emit (e : event) : keeps heap_same (emit e).
Proof. intros w; reflexivity. Qed.

Lemma heap_same_fs_write (p : string) (n : node) :
  keeps heap_same (fs_write p n).
Proof. intros w; reflexivity. Qed.

Lemma heap_grows_new_Network (sv : list C) (fv : list R) :
  keeps heap_grows (new_Network sv fv).
Proof. intros w; simpl. now eexists. Qed.

Lemma no_write_emit (e : event) :
  is_savefig e = false -> keeps no_write (emit e).
Proof.
  intros He w; split; [reflexivity |].
  exists [e]; split; [reflexivity |]. simpl; now rewrite He.
Qed.

Create HintDb footprint.

#[export] Hint Resolve
  heap_grows_refl heap_grows_trans heap_same_refl heap_same_trans
  no_write_refl no_write_trans : footprint.

#[export] Hint Resolve
  keeps_ret keeps_raise keeps_lift_opt keeps_deref keeps_getcwd
  keeps_path_exists keeps_assert keeps_getitem
  heap_same_emit heap_same_fs_write heap_grows_new_Network : footprint.

(** Split a computation along its binds and close the leaves with the
    lemmas of the primitives. *)
Ltac footprint :=
  repeat first
    [ solve [eauto with footprint]
    | apply keeps_bind
    | apply keeps_when
    | apply keeps_for_each
    | match goal with
      | |- keeps _ (match ?x with _ => _ end) => destruct x
      end
    | apply no_write_emit; reflexivity
    | progress intros ].

Lemma heap_same_savefig (p : string) : keeps heap_same (savefig p).
Proof. unfold savefig. footprint. Qed.

Lemma heap_same_makedirs (p : string) : keeps heap_same (makedirs p).
Proof. unfold makedirs. footprint. Qed.

Lemma heap_same_ax_plot axis x y label color ls :
  keeps heap_same (ax_plot axis x y label color ls).
Proof. unfold ax_plot. footprint. Qed.

Lemma heap_same_save_or_warn (save_plot : bool) (save_path : option string) :
  keeps heap_same (save_or_warn save_plot save_path).
Proof. unfold save_or_warn. footprint. Qed.

Lemma heap_same_write_touchstone (r : ref) (p : string) (kw : list string) :
  keeps heap_same (write_touchstone r p kw).
Proof. unfold write_touchstone. footprint. Qed.

Lemma keeps_heap_grows_of_same {A} (m : M A) :
  keeps heap_same m -> keeps heap_grows m.
Proof. intros H w; apply heap_same_grows, H. Qed.

#[export] Hint Resolve
  heap_same_savefig heap_same_makedirs heap_same_ax_plot
  heap_same_save_or_warn heap_same_write_touchstone : footprint.

#[export] Hint Resolve keeps_heap_grows_of_same | 5 : footprint.

(* ================================================================== *)
(** ** No operation changes an existing response *)

Lemma heap_grows_Network_from_file (file : string) :
  keeps heap_grows (Network_from_file file).
Proof.
  intros w; unfold Network_from_file.
  destruct (dict_get (resolve w file) (fs w)) as [[| |n]|]; simpl;
    eauto with footprint.
  now eexists.
Qed.

Lemma heap_grows_load_pairs (pairs : list (string * string)) (d : dict ref) :
  keeps heap_grows (load_pairs pairs d).
Proof.
  revert d; induction pairs as [|[file label] rest IH]; intros d; simpl.
  - footprint.
  - apply keeps_bind; eauto with footprint.
    apply heap_grows_Network_from_file.
Qed.

Lemma heap_grows_load_s1p files labels :
  keeps heap_grows (load_s1p files labels).
Proof. apply heap_grows_load_pairs. Qed.

Lemma heap_grows_LNA_total_reflection (a b : ref) :
  keeps heap_grows (LNA_total_reflection a b).
Proof. unfold LNA_total_reflection. footprint. Qed.

Lemma heap_same_plot_measured_vs_fitted d scale save_plot save_path :
  keeps heap_same (plot_measured_vs_fitted d scale save_plot save_path).
Proof. unfold plot_measured_vs_fitted, draw_measured_vs_fitted. footprint. Qed.

Lemma heap_same_subplots (cc : list string) (nrows : nat) :
  keeps heap_same (subplots cc nrows).
Proof. unfold subplots. footprint. Qed.

#[export] Hint Resolve heap_same_subplots : footprint.

Lemma heap_same_plot_s11_trace cc ang scale show_phase item :
  keeps heap_same (plot_s11_trace cc ang scale show_phase item).
Proof.
  destruct item as [idx [label r]]. unfold plot_s11_trace. footprint.
Qed.

Lemma heap_same_plot_s11_reflect cc ang d scale save_plot show_phase save_path :
  keeps heap_same
    (plot_s11_reflect cc ang d scale save_plot show_phase save_path).
Proof.
  unfold plot_s11_reflect, draw_s11_reflect. footprint.
  apply heap_same_plot_s11_trace.
Qed.

Lemma heap_same_smith_individual suffix save_plot item :
  keeps heap_same (smith_individual suffix save_plot item).
Proof. destruct item as [label r]. unfold smith_individual. footprint. Qed.

Lemma heap_same_plot_smith_chart d suffix save_plot save_dir individual :
  keeps heap_same (plot_smith_chart d suffix save_plot save_dir individual).
Proof.
  unfold plot_smith_chart. footprint; apply heap_same_smith_individual.
Qed.

Section FitterFootprint.

Variable curve_fit :
  forall P : Type,
    (list R -> P -> list R) -> list R -> list R -> P -> option P.

Lemma heap_grows_save_fitted r save_path :
  keeps heap_grows (save_fitted r save_path).
Proof. unfold save_fitted. footprint. Qed.

Lemma heap_grows_fit_reflection_coeff r gr gi gd save_path :
  keeps heap_grows (fit_reflection_coeff curve_fit r gr gi gd save_path).
Proof.
  unfold fit_reflection_coeff. footprint; apply heap_grows_save_fitted.
Qed.

Lemma heap_grows_fit_exp_decay r gr gi gd ga save_path :
  keeps heap_grows (fit_exp_decay curve_fit r gr gi gd ga save_path).
Proof.
  unfold fit_exp_decay. footprint; apply heap_grows_save_fitted.
Qed.

(** The reference a fitter returns is the next free one. *)
Lemma fit_reflection_coeff_fresh r gr gi gd save_path w res w' :
  fit_reflection_coeff curve_fit r gr gi gd save_path w = (inr res, w') ->
  snd res = length (heap w).
Proof.
  destruct (nth_error (heap w) r) as [ntwk|] eqn:Hr.
  - destruct (curve_fit _ reflection_model_delay (f ntwk)
                (concat_real_imag (s ntwk)) (gr, gi, gd))
      as [[[p0 p1] p2]|] eqn:E.
    + rewrite (fit_reflection_coeff_run curve_fit w r ntwk gr gi gd
                 save_path p0 p1 p2 Hr E).
      destruct save_path; simpl; [discriminate |].
      intros [= <- _]; reflexivity.
    + rewrite (fit_reflection_coeff_fail curve_fit w r ntwk gr gi gd
                 save_path Hr E). discriminate.
  - unfold fit_reflection_coeff, bind, deref. rewrite Hr. discriminate.
Qed.

Lemma fit_exp_decay_fresh r gr gi gd ga save_path w res w' :
  fit_exp_decay curve_fit r gr gi gd ga save_path w = (inr res, w') ->
  snd res = length (heap w).
Proof.
  destruct (nth_error (heap w) r) as [ntwk|] eqn:Hr.
  - destruct (curve_fit _ reflection_model_decay (f ntwk)
                (concat_real_imag (s ntwk)) (gr, gi, gd, ga))
      as [[[[p0 p1] p2] p3]|] eqn:E.
    + rewrite (fit_exp_decay_run curve_fit w r ntwk gr gi gd ga
                 save_path p0 p1 p2 p3 Hr E).
      destruct save_path; simpl; [discriminate |].
      intros [= <- _]; reflexivity.
    + rewrite (fit_exp_decay_fail curve_fit w r ntwk gr gi gd ga
                 save_path Hr E). discriminate.
  - unfold fit_exp_decay, bind, deref. rewrite Hr. discriminate.
Qed.

End FitterFootprint.

Lemma LNA_total_reflection_fresh a b w out w' :
  LNA_total_reflection a b w = (inr out, w') -> out = length (heap w).
Proof.
  unfold LNA_total_reflection, bind, deref.
  destruct (nth_error (heap w) a) as [ca|]; simpl; [| discriminate].
  destruct (nth_error (heap w) b) as [la|]; simpl; [| discriminate].
  destruct (broadcast Cmul (s ca) (s la)); simpl; [| discriminate].
  destruct (broadcast Cdiv _ _); simpl; [| discriminate].
  intros [= <- _]; reflexivity.
Qed.

(** C9.  An existing response keeps its frequency and value sequences
    through the combiner, both fitters and the three plotting routines,
    also when it is itself the argument; what the combiner and the
    fitters return is a new object, and the plotting routines leave the
    whole heap as it was. *)
Theorem responses_are_never_mutated
  (curve_fit : forall P : Type,
      (list R -> P -> list R) -> list R -> list R -> P -> option P)
  (color_cycle : list string) (angle_deg : C -> R)
  (w : world) (r : ref) (n : Network) :
  nth_error (heap w) r = Some n ->
  (forall a b,
      nth_error (heap (snd (LNA_total_reflection a b w))) r = Some n /\
      forall out, fst (LNA_total_reflection a b w) = inr out ->
                  out = length (heap w) /\ out <> r) /\
  (forall a gr gi gd sp,
      nth_error (heap (snd (fit_reflection_coeff curve_fit a gr gi gd sp w))) r
        = Some n /\
      forall res,
        fst (fit_reflection_coeff curve_fit a gr gi gd sp w) = inr res ->
        snd res = length (heap w) /\ snd res <> r) /\
  (forall a gr gi gd ga sp,
      nth_error (heap (snd (fit_exp_decay curve_fit a gr gi gd ga sp w))) r
        = Some n /\
      forall res, fst (fit_exp_decay curve_fit a gr gi gd ga sp w) = inr res ->
                  snd res = length (heap w) /\ snd res <> r) /\
  (forall d scale save_plot save_path,
      heap (snd (plot_measured_vs_fitted d scale save_plot save_path w))
        = heap w) /\
  (forall d scale save_plot show_phase save_path,
      heap (snd (plot_s11_reflect color_cycle angle_deg d scale save_plot
                   show_phase save_path w))
        = heap w) /\
  (forall d suffix save_plot save_dir individual,
      heap (snd (plot_smith_chart d suffix save_plot save_dir individual w))
        = heap w).
Proof.
  intros Hr.
  assert (Hlt : (r < length (heap w))%nat)
    by (apply nth_error_Some; congruence).
  split; [| split; [| split; [| split; [| split]]]].
  - intros a b. split.
    + apply heap_grows_lookup with (w := w); [| exact Hr].
      apply heap_grows_LNA_total_reflection.
    + intros out H.
      destruct (LNA_total_reflection a b w) as [res w'] eqn:E; simpl in H.
      subst res. apply LNA_total_reflection_fresh in E. lia.
  - intros a gr gi gd sp. split.
    + apply heap_grows_lookup with (w := w); [| exact Hr].
      apply heap_grows_fit_reflection_coeff.
    + intros res H.
      destruct (fit_reflection_coeff _ _ _ _ _ _ w) as [x w'] eqn:E;
        simpl in H; subst x.
      apply fit_reflection_coeff_fresh in E. lia.
  - intros a gr gi gd ga sp. split.
    + apply heap_grows_lookup with (w := w); [| exact Hr].
      apply heap_grows_fit_exp_decay.
    + intros res H.
      destruct (fit_exp_decay _ _ _ _ _ _ _ w) as [x w'] eqn:E;
        simpl in H; subst x.
      apply fit_exp_decay_fresh in E. lia.
  - intros; apply heap_same_plot_measured_vs_fitted.
  - intros; apply heap_same_plot_s11_reflect.
  - intros; apply heap_same_plot_smith_chart.
Qed.

Lemma responses_are_never_mutated_witness :
  nth_error (heap (snd (LNA_total_reflection 0%nat 0%nat lab))) 0
    = Some cable_data /\
  forall out, fst (LNA_total_reflection 0%nat 0%nat lab) = inr out ->
              out = length (heap lab) /\ out <> 0%nat.
Proof.
  exact (proj1 (responses_are_never_mutated echo_fit [] re lab 0%nat
                  cable_data eq_refl) 0%nat 0%nat).
Defined.

Lemma LNA_total_reflection_formula_witness :
  exists out : Network,
    LNA_total_reflection 0%nat 1%nat lab
      = (inr (length (heap lab)),
         mkWorld (heap lab ++ [out]) (fs lab) (cwd lab) (trace lab)) /\
    f out = f cable_data /\
    wf_Network out /\
    forall i zc zl,
      nth_error (s cable_data) i = Some zc ->
      nth_error (s lna_data) i = Some zl ->
      nth_error (s out) i = Some (Cdiv zc (Csub C1 (Cmul zc zl))) /\
      (zl = C0 -> nth_error (s out) i = Some zc).
Proof.
  apply (LNA_total_reflection_formula lab 0%nat 1%nat cable_data lna_data);
    reflexivity.
Defined.

(* ================================================================== *)
(** ** Errors of the primitives *)

Section RaisesOnly.

Variable P : exn -> Prop.

Lemma raises_only_ret {A} (a : A) : raises_only P (ret a).
Proof. intros w e w' H; discriminate H. Qed.

Lemma raises_only_raise {A} (e : exn) : P e -> raises_only P (@raise A e).
Proof. intros He w e' w' [= <- _]; exact He. Qed.

Lemma raises_only_lift_opt {A} (e : exn) (o : option A) :
  P e -> raises_only P (lift_opt e o).
Proof.
  destruct o; [intros _; apply raises_only_ret | apply raises_only_raise].
Qed.

Lemma raises_only_bind {A B} (m : M A) (k : A -> M B) :
  raises_only P m -> (forall a, raises_only P (k a)) ->
  raises_only P (bind m k).
Proof.
  intros Hm Hk w e w'. unfold bind.
  destruct (m w) as [[e1|a] w1] eqn:E.
  - intros [= <- <-]. exact (Hm _ _ _ E).
  - apply Hk.
Qed.

Lemma raises_only_emit (ev : event) : raises_only P (emit ev).
Proof. intros w e w' H; discriminate H. Qed.

Lemma raises_only_fs_write p n : raises_only P (fs_write p n).
Proof. intros w e w' H; discriminate H. Qed.

Lemma raises_only_when (b : bool) (m : M unit) :
  raises_only P m -> raises_only P (when b m).
Proof. destruct b; simpl; [auto | intros _; apply raises_only_ret]. Qed.

Lemma raises_only_deref (r : ref) : P InvalidRef -> raises_only P (deref r).
Proof.
  intros H w; unfold deref. apply raises_only_lift_opt; exact H.
Qed.

Lemma raises_only_ax_plot axis x y label color ls :
  P ValueError -> raises_only P (ax_plot axis x y label color ls).
Proof.
  intros H; unfold ax_plot. destruct (Nat.eqb _ _);
    [apply raises_only_emit | now apply raises_only_raise].
Qed.

End RaisesOnly.

Lemma magnitude_length (scale : string) (z : list C) :
  length (magnitude scale z) = length z.
Proof.
  unfold magnitude; destruct (String.eqb scale "log");
    now rewrite ?length_map.
Qed.

Lemma MHz_length (freq : list R) : length (MHz freq) = length freq.
Proof. apply length_map. Qed.

Lemma emit_run (e : event) (w : world) : emit e w = (inr tt, add_events w [e]).
Proof. reflexivity. Qed.

Lemma add_events_app (w : world) (a b : list event) :
  add_events (add_events w a) b = add_events w (a ++ b).
Proof. unfold add_events; simpl. now rewrite app_assoc. Qed.

Lemma ax_plot_run axis x y label color ls (w : world) :
  length x = length y ->
  ax_plot axis x y label color ls w
    = (inr tt, add_events w [Plot axis x y label color ls]).
Proof.
  intros H; unfold ax_plot. rewrite H, Nat.eqb_refl. reflexivity.
Qed.

Lemma getitem_run {V} (d : dict V) (k : string) (v : V) (w : world) :
  dict_get k d = Some v -> getitem d k w = (inr v, w).
Proof. intros H; unfold getitem; rewrite H; reflexivity. Qed.

(** Run the first computation of a bind whose outcome [tac] can tell. *)
Ltac run_with tac := erewrite bind_ok; [| solve [tac]].

(** The drawing part on a two-entry collection of well-formed responses
    on grids of one length. *)
Lemma draw_measured_vs_fitted_run (w : world) (k0 k1 : string) (r0 r1 : ref)
  (measured fitted : Network) (scale : string) :
  k0 <> k1 ->
  nth_error (heap w) r0 = Some measured ->
  nth_error (heap w) r1 = Some fitted ->
  wf_Network measured -> wf_Network fitted ->
  length (f measured) = length (f fitted) ->
  draw_measured_vs_fitted [(k0, r0); (k1, r1)] scale w
    = (inr tt,
       add_events w (measured_vs_fitted_events k0 k1 measured fitted scale)).
Proof.
  intros Hk H0 H1 W0 W1 Hf.
  assert (Hs : length (s measured) = length (s fitted))
    by (unfold wf_Network in *; congruence).
  assert (Hm : length (magnitude scale (s measured))
               = length (magnitude scale (s fitted)))
    by (now rewrite !magnitude_length).
  assert (E : String.eqb k0 k1 = false) by (now apply String.eqb_neq).
  unfold draw_measured_vs_fitted.
  run_with reflexivity. cbv zeta.
  run_with reflexivity.
  run_with reflexivity.
  run_with ltac:(apply getitem_run; simpl; rewrite String.eqb_refl;
                 reflexivity).
  run_with ltac:(apply getitem_run; simpl; rewrite E, String.eqb_refl;
                 reflexivity).
  run_with ltac:(apply deref_some; eassumption).
  run_with ltac:(apply deref_some; eassumption).
  run_with ltac:(rewrite (broadcast_same _ _ _ Hm); reflexivity).
  run_with ltac:(apply emit_run).
  run_with ltac:(apply ax_plot_run;
                 rewrite MHz_length, magnitude_length; exact W0).
  run_with ltac:(apply ax_plot_run; rewrite MHz_length, magnitude_length;
                 unfold wf_Network in *; congruence).
  run_with ltac:(apply ax_plot_run;
                 rewrite MHz_length, length_map, zip_with_length,
                   magnitude_length; [exact W0 | exact Hm]).
  rewrite emit_run, !add_events_app. reflexivity.
Qed.

(** Split a computation along its binds to bound the errors it raises. *)
Ltac raises :=
  repeat first
    [ apply raises_only_bind
    | apply raises_only_ret
    | apply raises_only_emit
    | apply raises_only_fs_write
    | apply raises_only_when
    | apply raises_only_lift_opt
    | apply raises_only_deref
    | apply raises_only_ax_plot
    | apply raises_only_raise
    | match goal with
      | |- raises_only _ (match ?x with _ => _ end) => destruct x
      end
    | exact I
    | progress intros ].

Lemma save_or_warn_not_assertion (save_plot : bool)
  (save_path : option string) :
  raises_only not_assertion (save_or_warn save_plot save_path).
Proof. unfold save_or_warn, savefig. raises. Qed.

Lemma plot_measured_vs_fitted_not_assertion d scale save_plot save_path :
  length d = 2%nat ->
  raises_only not_assertion
    (plot_measured_vs_fitted d scale save_plot save_path).
Proof.
  intros H. unfold plot_measured_vs_fitted, draw_measured_vs_fitted, assert.
  rewrite H; simpl Nat.eqb. cbv iota.
  unfold getitem. raises.
Qed.

Lemma save_or_warn_run (w : world) (save_plot : bool)
  (save_path : option string) :
  exists w', save_or_warn save_plot save_path w = (inr tt, w') /\
             heap w' = heap w /\ cwd w' = cwd w /\
             exists evs, trace w' = trace w ++ evs.
Proof.
  destruct save_plot; [destruct save_path as [p|] |]; eexists;
    (split; [reflexivity |]); simpl; repeat split; eauto.
  exists []; now rewrite app_nil_r.
Qed.

(** C4.  The measured-vs-fitted plot raises its assertion error exactly
    when the collection does not have two entries; with two entries of
    well-formed responses on grids of one length it returns normally,
    having drawn the first entry as the measured trace and the second as
    the fitted one. *)
Theorem plot_measured_vs_fitted_arity
  (w : world) (d : dict ref) (scale : string)
  (save_plot : bool) (save_path : option string) :
  (length d <> 2%nat ->
   plot_measured_vs_fitted d scale save_plot save_path w
     = (inl (AssertionError arity_msg), w)) /\
  (length d = 2%nat ->
   forall e w',
     plot_measured_vs_fitted d scale save_plot save_path w = (inl e, w') ->
     not_assertion e) /\
  (forall k0 k1 r0 r1 measured fitted,
      d = [(k0, r0); (k1, r1)] -> k0 <> k1 ->
      nth_error (heap w) r0 = Some measured ->
      nth_error (heap w) r1 = Some fitted ->
      wf_Network measured -> wf_Network fitted ->
      length (f measured) = length (f fitted) ->
      exists w' tail,
        plot_measured_vs_fitted d scale save_plot save_path w = (inr tt, w') /\
        trace w'
          = trace w
            ++ measured_vs_fitted_events k0 k1 measured fitted scale
            ++ tail).
Proof.
  split; [| split].
  - intros H. apply Nat.eqb_neq in H.
    unfold plot_measured_vs_fitted, draw_measured_vs_fitted, bind, assert.
    rewrite H. reflexivity.
  - intros H e w'. now apply plot_measured_vs_fitted_not_assertion.
  - intros k0 k1 r0 r1 measured fitted -> Hk H0 H1 W0 W1 Hf.
    unfold plot_measured_vs_fitted.
    run_with ltac:(apply (draw_measured_vs_fitted_run w k0 k1 r0 r1
                            measured fitted scale); assumption).
    destruct (save_or_warn_run
                (add_events w
                   (measured_vs_fitted_events k0 k1 measured fitted scale))
                save_plot save_path)
      as (w1 & Hrun & _ & _ & evs & Htr).
    run_with ltac:(exact Hrun).
    exists (add_events w1 [ShowFigure]), (evs ++ [ShowFigure]).
    split; [reflexivity |].
    simpl. rewrite Htr. simpl. now rewrite <- !app_assoc.
Qed.

Lemma plot_measured_vs_fitted_arity_witness :
  exists w' tail,
    plot_measured_vs_fitted [("measured", 0%nat); ("fitted", 1%nat)]
      "linear" true None lab = (inr tt, w') /\
    trace w'
      = trace lab
        ++ measured_vs_fitted_events "measured" "fitted" cable_data lna_data
             "linear"
        ++ tail.
Proof.
  apply (proj2 (proj2 (plot_measured_vs_fitted_arity lab
                         [("measured", 0%nat); ("fitted", 1%nat)]
                         "linear" true None))
           "measured" "fitted" 0%nat 1%nat cable_data lna_data);
    try reflexivity.
  discriminate.
Defined.

(** Three entries: the assertion fires before anything is drawn. *)
Example plot_measured_vs_fitted_three :
  plot_measured_vs_fitted
    [("a", 0%nat); ("b", 1%nat); ("c", 0%nat)] "linear" true None lab
  = (inl (AssertionError arity_msg), lab).
Proof. reflexivity. Qed.

(* ================================================================== *)
(** ** The Smith chart *)

(** A loop whose body never raises is the fold of its world updates. *)
Lemma for_each_run {A} (xs : list A) (body : A -> M unit)
  (upd : A -> world -> world) :
  (forall x w, body x w = (inr tt, upd x w)) ->
  forall w, for_each xs body w = (inr tt, fold_left (fun w x => upd x w) xs w).
Proof.
  intros Hb; induction xs as [|x xs IH]; intros w; simpl.
  - reflexivity.
  - unfold bind. rewrite Hb. apply IH.
Qed.

Lemma smith_overlay_fold (d : dict ref) (w : world) :
  fold_left (fun w item => add_events w [SmithPlot (fst item) (snd item)]) d w
    = add_events w (map (fun '(label, r) => SmithPlot label r) d).
Proof.
  revert w; induction d as [|[l r] d IH]; intros w; simpl.
  - unfold add_events. rewrite app_nil_r. now destruct w.
  - rewrite IH, add_events_app. reflexivity.
Qed.

Lemma smith_overlay_run (d : dict ref) (w : world) :
  for_each d (fun '(label, ntwk) => emit (SmithPlot label ntwk)) w
    = (inr tt, add_events w (map (fun '(label, r) => SmithPlot label r) d)).
Proof.
  rewrite for_each_run
    with (upd := fun item w => add_events w [SmithPlot (fst item) (snd item)]).
  - now rewrite smith_overlay_fold.
  - intros [l r] w0; reflexivity.
Qed.

Lemma smith_individual_run (sfx : string) (item : string * ref) (w : world) :
  smith_individual sfx true item w = (inr tt, trace_chart_step w sfx item w).
Proof.
  destruct item as [l r].
  unfold smith_individual, trace_chart_step, when, savefig, bind, emit,
    fs_write, resolve; simpl.
  rewrite <- !app_assoc. reflexivity.
Qed.

Lemma trace_chart_fold (w0 : world) (suffix : string) (d : dict ref)
  (w : world) :
  cwd w = cwd w0 ->
  fold_left
    (fun w item => trace_chart_step w (replace space underscore suffix) item w)
    d w
  = mkWorld (heap w) (trace_chart_fs w0 d suffix (fs w)) (cwd w)
      (trace w ++ trace_chart_events d suffix).
Proof.
  revert w; induction d as [|[l r] d IH]; intros w Hc; simpl.
  - rewrite app_nil_r. now destruct w.
  - rewrite IH by exact Hc. simpl.
    unfold resolve, trace_chart_name; rewrite Hc, <- !app_assoc.
    reflexivity.
Qed.

Lemma path_exists_run (p : string) (w : world) :
  path_exists p w = (inr (negb (dir_missing w p)), w).
Proof.
  unfold path_exists, dir_missing.
  destruct (String.eqb p ""); [reflexivity |].
  destruct (dict_get (resolve w p) (fs w)); reflexivity.
Qed.

(** The whole routine with [save_plot] set and a save directory that
    has a name. *)
Lemma plot_smith_chart_run (w : world) (d : dict ref) (suffix : string)
  (save_dir : option string) (individual : bool) :
  chart_dir w save_dir <> "" ->
  plot_smith_chart d suffix true save_dir individual w
  = (inr tt,
     mkWorld (heap w)
       (if individual
        then trace_chart_fs w d suffix (combined_chart_fs w suffix save_dir)
        else combined_chart_fs w suffix save_dir)
       (cwd w)
       (trace w ++ combined_chart_events w d suffix save_dir
          ++ (if individual then trace_chart_events d suffix else []))).
Proof.
  intros Hdir. apply String.eqb_neq in Hdir.
  unfold plot_smith_chart.
  run_with ltac:(apply emit_run).
  run_with ltac:(apply smith_overlay_run).
  rewrite add_events_app.
  set (w1 := add_events w _).
  assert (Hsave :
    (let sfx := replace space underscore suffix in
     save_dir0 <- match save_dir with None => getcwd | Some d0 => ret d0 end ;;
     ex <- path_exists save_dir0 ;;
     when (negb ex) (makedirs save_dir0) ;;;
     savefig (pjoin save_dir0 (sfx ++ "_smith_chart.png")%string) ;;;
     ret sfx) w1
    = (inr (replace space underscore suffix),
       mkWorld (heap w) (combined_chart_fs w suffix save_dir) (cwd w)
         (trace w1
            ++ (if dir_missing w (chart_dir w save_dir)
                then [MakeDirs (chart_dir w save_dir)] else [])
            ++ [SaveFig (pjoin (chart_dir w save_dir)
                           (combined_chart_name suffix))]))).
  { cbv zeta.
    run_with ltac:(instantiate (1 := w1);
                   instantiate (1 := chart_dir w save_dir);
                   destruct save_dir; reflexivity).
    run_with ltac:(apply path_exists_run).
    unfold combined_chart_fs, makedirs. rewrite Hdir.
    change (dir_missing w1 (chart_dir w save_dir))
      with (dir_missing w (chart_dir w save_dir)).
    destruct (dir_missing w (chart_dir w save_dir)); simpl;
      unfold bind; simpl; rewrite <- ?app_assoc; reflexivity. }
  cbv zeta in Hsave.
  run_with ltac:(exact Hsave).
  run_with ltac:(apply emit_run).
  destruct individual; simpl when.
  - rewrite for_each_run
      with (upd := fun item w =>
                     trace_chart_step w (replace space underscore suffix)
                       item w)
      by (intros; apply smith_individual_run).
    rewrite trace_chart_fold with (w0 := w) by reflexivity.
    unfold add_events, combined_chart_events, w1; simpl.
    rewrite <- !app_assoc. reflexivity.
  - unfold add_events, combined_chart_events, w1, ret; simpl.
    rewrite <- !app_assoc, app_nil_r. reflexivity.
Qed.

Lemma dict_set_image_kept (k k' : string) (t : dict node) :
  dict_get k t = Some Image -> dict_get k (dict_set k' Image t) = Some Image.
Proof. intros H; rewrite dict_get_set, H. now destruct (String.eqb k' k). Qed.

Lemma trace_chart_fs_image (w : world) (d : dict ref) (suffix : string)
  (t : dict node) (k : string) :
  dict_get k t = Some Image \/
  (exists l r, In (l, r) d /\ k = resolve w (trace_chart_name suffix l)) ->
  dict_get k (trace_chart_fs w d suffix t) = Some Image.
Proof.
  revert t; induction d as [|[l r] d IH]; intros t H; simpl.
  - destruct H as [H | (l & r & [] & _)]; exact H.
  - apply IH. destruct H as [H | (l' & r' & [Hin | Hin] & Hk)].
    + left. now apply dict_set_image_kept.
    + left. injection Hin as <- <-. subst k; simpl.
      now rewrite dict_get_set, String.eqb_refl.
    + right. now exists l', r'.
Qed.


(** Without a name for the save directory the routine stops in
    [os.makedirs]. *)
Lemma plot_smith_chart_no_dir (w : world) (d : dict ref) (suffix : string)
  (save_dir : option string) (individual : bool) :
  chart_dir w save_dir = "" ->
  plot_smith_chart d suffix true save_dir individual w
  = (inl (FileNotFoundError ""),
     add_events w
       (Subplots 1 :: map (fun '(label, r) => SmithPlot label r) d)).
Proof.
  intros Hdir. unfold plot_smith_chart.
  run_with ltac:(apply emit_run).
  run_with ltac:(apply smith_overlay_run).
  rewrite add_events_app.
  destruct save_dir as [d0|]; simpl in Hdir.
  - subst d0. reflexivity.
  - unfold bind, getcwd, path_exists, makedirs; simpl.
    rewrite Hdir. reflexivity.
Qed.

Lemma plot_smith_chart_returns (w : world) (d : dict ref) (suffix : string)
  (save_dir : option string) (individual : bool) (w' : world) :
  plot_smith_chart d suffix true save_dir individual w = (inr tt, w') ->
  chart_dir w save_dir <> "".
Proof.
  intros H Hdir.
  rewrite (plot_smith_chart_no_dir w d suffix save_dir individual Hdir) in H.
  discriminate H.
Qed.

Lemma returns_eta {A : Type} (m : M A) (w : world) (a : A) :
  fst (m w) = inr a -> m w = (inr a, snd (m w)).
Proof. destruct (m w) as [o w1]; simpl; now intros ->. Qed.

Lemma plot_smith_chart_inv (w : world) (d : dict ref) (suffix : string)
  (save_dir : option string) (individual : bool) (w' : world) :
  plot_smith_chart d suffix true save_dir individual w = (inr tt, w') ->
  chart_dir w save_dir <> "" /\
  w' = mkWorld (heap w)
         (if individual
          then trace_chart_fs w d suffix (combined_chart_fs w suffix save_dir)
          else combined_chart_fs w suffix save_dir)
         (cwd w)
         (trace w ++ combined_chart_events w d suffix save_dir
            ++ (if individual then trace_chart_events d suffix else [])).
Proof.
  intros H.
  pose proof (plot_smith_chart_returns _ _ _ _ _ _ H) as Hdir.
  rewrite (plot_smith_chart_run w d suffix save_dir individual Hdir) in H.
  injection H as <-. now split.
Qed.

Lemma has_char_append (c : ascii) (a b : string) :
  has_char c (a ++ b)%string = (has_char c a || has_char c b)%bool.
Proof.
  induction a as [|x a IH]; simpl; [reflexivity |].
  now rewrite IH, orb_assoc.
Qed.

Lemma has_char_replace_other (c a b : ascii) (p : string) :
  c <> a -> c <> b -> has_char c (replace a b p) = has_char c p.
Proof.
  intros Ha Hb; induction p as [|x p IH]; simpl; [reflexivity |].
  rewrite IH. f_equal.
  destruct (Ascii.eqb x a) eqn:E; [| reflexivity].
  apply Ascii.eqb_eq in E; subst x.
  transitivity false; [| symmetry]; apply Ascii.eqb_neq; congruence.
Qed.

Lemma has_char_startswith (p : string) :
  has_char sep p = false -> startswith_sep p = false.
Proof.
  destruct p as [|c p]; simpl; [reflexivity |].
  intros H. apply orb_false_iff in H. apply H.
Qed.


Lemma combined_chart_name_plain (suffix : string) :
  has_char sep suffix = false ->
  has_char sep (combined_chart_name suffix) = false.
Proof.
  intros Hs. unfold combined_chart_name.
  rewrite has_char_append, has_char_replace_other, Hs by discriminate.
  reflexivity.
Qed.

Lemma pjoin_plain (dir name : string) :
  has_char sep name = false ->
  pjoin dir name
    = (if (String.eqb dir "" || endswith_sep dir)%bool
       then dir ++ name else dir ++ "/" ++ name)%string.
Proof.
  intros H. unfold pjoin. now rewrite (has_char_startswith _ H).
Qed.



(* ================================================================== *)
(** ** Saving without a path *)

Lemma no_write_ax_plot axis x y label color ls :
  keeps no_write (ax_plot axis x y label color ls).
Proof. unfold ax_plot. footprint. Qed.

Lemma no_write_draw_measured_vs_fitted d scale :
  keeps no_write (draw_measured_vs_fitted d scale).
Proof.
  unfold draw_measured_vs_fitted. footprint; apply no_write_ax_plot.
Qed.

Lemma no_write_plot_s11_trace cc ang scale show_phase item :
  keeps no_write (plot_s11_trace cc ang scale show_phase item).
Proof.
  destruct item as [idx [label r]]. unfold plot_s11_trace.
  footprint; apply no_write_ax_plot.
Qed.

Lemma no_write_subplots (cc : list string) (nrows : nat) :
  keeps no_write (subplots cc nrows).
Proof. unfold subplots. footprint. Qed.

Lemma no_write_draw_s11_reflect cc ang d scale show_phase :
  keeps no_write (draw_s11_reflect cc ang d scale show_phase).
Proof.
  unfold draw_s11_reflect. footprint.
  - apply no_write_subplots.
  - apply no_write_plot_s11_trace.
Qed.

Section WarnOnly.

(** The drawing part of a frequency plot. *)
Variable draw : M unit.
Hypothesis draw_quiet : keeps no_write draw.

Lemma framed_warns (w : world) :
  no_write w (snd (framed draw true None w)) /\
  fst (framed draw true None w) = fst (framed draw false None w) /\
  (forall w',
      framed draw true None w = (inr tt, w') ->
      exists evs,
        trace w'
          = trace w ++ evs ++ [ConsolePrint no_path_msg; ShowFigure] /\
        fs w' = fs w).
Proof.
  unfold framed, bind.
  pose proof (draw_quiet w) as Hq.
  destruct (draw w) as [[e|[]] w1]; simpl in *.
  - split; [exact Hq |]. split; [reflexivity |]. discriminate.
  - destruct Hq as [Hfs (evs & Htr & Hno)].
    split; [| split].
    + split; [exact Hfs |].
      exists (evs ++ [ConsolePrint no_path_msg; ShowFigure]). split.
      * rewrite Htr, <- !app_assoc. reflexivity.
      * rewrite forallb_app, Hno. reflexivity.
    + reflexivity.
    + intros w' [= <-]. exists evs; simpl.
      rewrite Htr, <- !app_assoc. split; [reflexivity | exact Hfs].
Qed.

End WarnOnly.

Lemma no_print_overlay (d : dict ref) :
  forallb (fun e => negb (is_print e))
    (map (fun '(label, r) => SmithPlot label r) d) = true.
Proof. induction d as [|[l r] d IH]; simpl; auto. Qed.

Lemma no_print_trace_charts (d : dict ref) (suffix : string) :
  forallb (fun e => negb (is_print e)) (trace_chart_events d suffix) = true.
Proof. induction d as [|[l r] d IH]; simpl; auto. Qed.

(** C5, as stated, fails for the Smith chart: without a save directory
    it saves the combined chart in the working directory and prints
    nothing. *)
Lemma smith_chart_no_warning_counterexample :
  let w' := snd (plot_smith_chart [("lna", 1%nat)] "LNA" true None false lab) in
  trace w'
    = [Subplots 1; SmithPlot "lna" 1%nat;
       SaveFig "/lab/LNA_smith_chart.png"; ShowFigure] /\
  dict_get "/lab/LNA_smith_chart.png" (fs lab) = None /\
  dict_get "/lab/LNA_smith_chart.png" (fs w') = Some Image.
Proof. repeat split. Qed.

(** C5, amended.  In the measured-vs-fitted plot and in the multi-trace
    plot a save request without a path only adds a console warning: the
    call raises exactly when it raises with the save flag off, it
    writes no file, and when it returns the warning and the display are
    the last two events.  The Smith chart function has no such branch
    and never prints: without a save directory it takes the working
    directory of the process, and whenever the call returns the
    combined chart has been saved there, as the working directory
    joined to [<suffix>_smith_chart.png], which for a suffix without
    path separator is a file directly in that directory. *)
Theorem save_requested_without_path
  (color_cycle : list string) (angle_deg : C -> R) (w : world) :
  (forall d scale,
      no_write w (snd (plot_measured_vs_fitted d scale true None w)) /\
      fst (plot_measured_vs_fitted d scale true None w)
        = fst (plot_measured_vs_fitted d scale false None w) /\
      (forall w',
          plot_measured_vs_fitted d scale true None w = (inr tt, w') ->
          exists evs,
            trace w'
              = trace w ++ evs ++ [ConsolePrint no_path_msg; ShowFigure] /\
            fs w' = fs w)) /\
  (forall d scale show_phase,
      no_write w
        (snd (plot_s11_reflect color_cycle angle_deg d scale true show_phase
                None w)) /\
      fst (plot_s11_reflect color_cycle angle_deg d scale true show_phase
             None w)
        = fst (plot_s11_reflect color_cycle angle_deg d scale false show_phase
                 None w) /\
      (forall w',
          plot_s11_reflect color_cycle angle_deg d scale true show_phase
            None w = (inr tt, w') ->
          exists evs,
            trace w'
              = trace w ++ evs ++ [ConsolePrint no_path_msg; ShowFigure] /\
            fs w' = fs w)) /\
  (forall d suffix individual,
      no_print w (snd (plot_smith_chart d suffix true None individual w)) /\
      (forall w',
          plot_smith_chart d suffix true None individual w = (inr tt, w') ->
          exists evs,
            trace w' = trace w ++ evs /\
            In (SaveFig (pjoin (cwd w) (combined_chart_name suffix))) evs /\
            dict_get (resolve w (pjoin (cwd w) (combined_chart_name suffix)))
              (fs w') = Some Image) /\
      (has_char sep suffix = false ->
       has_char sep (combined_chart_name suffix) = false /\
       pjoin (cwd w) (combined_chart_name suffix)
         = (if (String.eqb (cwd w) "" || endswith_sep (cwd w))%bool
            then cwd w ++ combined_chart_name suffix
            else cwd w ++ "/" ++ combined_chart_name suffix)%string)).
Proof.
  split; [| split].
  - intros d scale.
    apply (framed_warns (draw_measured_vs_fitted d scale)
             (no_write_draw_measured_vs_fitted d scale) w).
  - intros d scale show_phase.
    apply (framed_warns
             (draw_s11_reflect color_cycle angle_deg d scale show_phase)
             (no_write_draw_s11_reflect color_cycle angle_deg d scale
                show_phase) w).
  - intros d suffix individual.
    assert (Hnp : forallb (fun e => negb (is_print e))
                    (combined_chart_events w d suffix None
                       ++ (if individual then trace_chart_events d suffix
                           else [])) = true).
    { unfold combined_chart_events; cbv zeta.
      rewrite !forallb_app, no_print_overlay.
      destruct (dir_missing w (chart_dir w None)); simpl;
        destruct individual; simpl; auto using no_print_trace_charts. }
    assert (Hin : In (SaveFig (pjoin (cwd w) (combined_chart_name suffix)))
                    (combined_chart_events w d suffix None
                       ++ (if individual then trace_chart_events d suffix
                           else []))).
    { unfold combined_chart_events; cbv zeta.
      rewrite !in_app_iff. simpl. intuition. }
    split; [| split].
    + destruct (String.eqb (chart_dir w None) "") eqn:E.
      * apply String.eqb_eq in E.
        rewrite (plot_smith_chart_no_dir w d suffix None individual E).
        eexists; split; [reflexivity |].
        simpl. apply no_print_overlay.
      * apply String.eqb_neq in E.
        rewrite (plot_smith_chart_run w d suffix None individual E).
        eexists; split; [reflexivity | exact Hnp].
    + intros w' H.
      pose proof (plot_smith_chart_returns _ _ _ _ _ _ H) as Hdir.
      rewrite (plot_smith_chart_run w d suffix None individual Hdir) in H.
      injection H as <-.
      eexists; split; [reflexivity |]. split.
      * exact Hin.
      * cbn [fs snd].
        assert (Hc : dict_get
                       (resolve w (pjoin (cwd w) (combined_chart_name suffix)))
                       (combined_chart_fs w suffix None) = Some Image)
          by (unfold combined_chart_fs; simpl;
              now rewrite dict_get_set, String.eqb_refl).
        destruct individual; [| exact Hc].
        apply trace_chart_fs_image. now left.
    + intros Hs.
      pose proof (combined_chart_name_plain suffix Hs) as Hn.
      split; [exact Hn | now apply pjoin_plain].
Qed.

Lemma save_requested_without_path_witness :
  exists evs,
    trace (snd (plot_measured_vs_fitted
                  [("measured", 0%nat); ("fitted", 1%nat)]
                  "log" true None lab))
      = trace lab ++ evs ++ [ConsolePrint no_path_msg; ShowFigure] /\
    fs (snd (plot_measured_vs_fitted
               [("measured", 0%nat); ("fitted", 1%nat)]
               "log" true None lab))
      = fs lab.
Proof.
  apply (proj2 (proj2 (proj1 (save_requested_without_path [] re lab)
                         [("measured", 0%nat); ("fitted", 1%nat)] "log"))).
  reflexivity.
Defined.

(* ================================================================== *)
(** * Further properties of the module *)

(** ** The loader: failures, distinct labels, shape of the result *)

Lemma load_combine_missing (bad : string) (post : list string)
  (pre : list string) :
  forall (nets : list Network) (ls : list string) (d : dict ref) (w : world),
    readable w pre nets ->
    (length pre < length ls)%nat ->
    dict_get (resolve w bad) (fs w) = None ->
    load_pairs (combine (pre ++ bad :: post) ls) d w
      = (inl (FileNotFoundError bad),
         mkWorld (heap w ++ nets) (fs w) (cwd w) (trace w)).
Proof.
  unfold readable.
  induction pre as [|p pre IH]; intros nets ls d w Hr Hlen He;
    inversion Hr; subst; destruct ls as [|l0 ls]; simpl in Hlen; try lia;
    simpl.
  - unfold bind, Network_from_file.
    rewrite app_nil_r, He. destruct w; reflexivity.
  - unfold bind, Network_from_file.
    match goal with Hx : dict_get _ _ = Some _ |- _ => rewrite Hx end.
    unfold new_Network. rewrite Network_eta.
    rewrite IH with (nets := l'); simpl.
    + now rewrite <- app_assoc.
    + assumption.
    + lia.
    + exact He.
Qed.

(** X1.  The loader stops at the first file that does not exist, with
    the error of [open]: the files before it have been loaded into
    memory, no mapping is returned, and nothing is written or drawn. *)
Theorem load_s1p_stops_at_first_missing_file
  (w : world) (pre post : list string) (bad : string)
  (labels : option (list string)) (nets : list Network) :
  readable w pre nets ->
  (forall l, labels = Some l -> (length pre < length l)%nat) ->
  dict_get (resolve w bad) (fs w) = None ->
  load_s1p (pre ++ bad :: post) labels w
    = (inl (FileNotFoundError bad),
       mkWorld (heap w ++ nets) (fs w) (cwd w) (trace w)).
Proof.
  intros Hr Hl He.
  unfold load_s1p. apply load_combine_missing; try assumption.
  destruct labels as [l|]; [now apply Hl |].
  rewrite length_map, length_app; simpl; lia.
Qed.

Lemma load_s1p_stops_at_first_missing_file_witness :
  load_s1p (["/data/cable.s1p"] ++ "/data/./missing.s1p"
              :: ["/data/run1/lna.s1p"])
    None lab
    = (inl (FileNotFoundError "/data/./missing.s1p"),
       mkWorld (heap lab ++ [cable_data]) (fs lab) (cwd lab) (trace lab)).
Proof.
  apply (load_s1p_stops_at_first_missing_file lab ["/data/cable.s1p"]
           ["/data/run1/lna.s1p"] "/data/./missing.s1p" None [cable_data]).
  - repeat constructor.
  - discriminate.
  - reflexivity.
Defined.

Lemma dict_set_absent {V} (k : string) (v : V) (d : dict V) :
  dict_get k d = None -> dict_set k v d = d ++ [(k, v)].
Proof.
  induction d as [|[k0 v0] d IH]; simpl; [reflexivity |].
  destruct (String.eqb k0 k); [discriminate |].
  intros H; now rewrite IH.
Qed.

Lemma dict_get_app_absent {V} (k k' : string) (v : V) (d : dict V) :
  k <> k' -> dict_get k d = None -> dict_get k (d ++ [(k', v)]) = None.
Proof.
  intros Hk; induction d as [|[k0 v0] d IH]; simpl.
  - intros _. destruct (String.eqb k' k) eqn:E; [| reflexivity].
    apply String.eqb_eq in E; congruence.
  - destruct (String.eqb k0 k); [discriminate | exact IH].
Qed.

Lemma assign_distinct (labels : list string) :
  forall (base : ref) (d : dict ref),
    NoDup labels ->
    (forall l, In l labels -> dict_get l d = None) ->
    assign labels base d = d ++ combine labels (seq base (length labels)).
Proof.
  induction labels as [|l ls IH]; intros base d Hnd Habs; simpl.
  - now rewrite app_nil_r.
  - inversion Hnd as [|? ? Hnotin Hnd']; subst.
    rewrite dict_set_absent by (apply Habs; now left).
    rewrite IH; [now rewrite <- app_assoc | exact Hnd' |].
    intros l' Hin. apply dict_get_app_absent.
    + intros ->; contradiction.
    + apply Habs; now right.
Qed.

Lemma dict_get_combine_seq (labels : list string) :
  forall (base i : nat) (l : string),
    NoDup labels -> nth_error labels i = Some l ->
    dict_get l (combine labels (seq base (length labels)))
      = Some (base + i)%nat.
Proof.
  induction labels as [|l0 ls IH]; intros base [|i] l Hnd Hi;
    simpl in *; try discriminate.
  - injection Hi as ->. rewrite String.eqb_refl. f_equal; lia.
  - inversion Hnd as [|? ? Hnotin Hnd']; subst.
    destruct (String.eqb l0 l) eqn:E.
    + apply String.eqb_eq in E; subst l0.
      exfalso; apply Hnotin. eapply nth_error_In; exact Hi.
    + rewrite (IH (S base) i l Hnd' Hi). f_equal; lia.
Qed.

(** X2.  With as many labels as files, all distinct, the mapping has
    exactly the given labels as keys, in the given order, and looking a
    label up gives the object loaded from the file at the same
    position. *)
Theorem load_s1p_distinct_labels
  (w : world) (files labels : list string) (nets : list Network) :
  readable w files nets ->
  length labels = length files ->
  NoDup labels ->
  exists d : dict ref,
    load_s1p files (Some labels) w
      = (inr d, mkWorld (heap w ++ nets) (fs w) (cwd w) (trace w)) /\
    keys d = labels /\
    forall i l n,
      nth_error labels i = Some l -> nth_error nets i = Some n ->
      dict_get l d = Some (length (heap w) + i)%nat /\
      nth_error (heap w ++ nets) (length (heap w) + i) = Some n.
Proof.
  intros Hr Hlen Hnd.
  pose proof (load_s1p_run w files (Some labels) nets) as Hrun.
  cbv beta iota zeta in Hrun.
  rewrite <- Hlen, Nat.min_id in Hrun.
  rewrite firstn_all in Hrun.
  rewrite firstn_all2 in Hrun by lia.
  specialize (Hrun Hr).
  rewrite assign_distinct in Hrun by (auto; intros; reflexivity).
  simpl in Hrun.
  eexists; split; [exact Hrun |]. split.
  - unfold keys. clear -Hnd.
    generalize (length (heap w)).
    induction labels as [|l ls IH]; intros base; simpl; [reflexivity |].
    inversion Hnd; subst. now rewrite IH.
  - intros i l n Hi Hn. split.
    + now apply dict_get_combine_seq.
    + rewrite nth_error_app2 by lia.
      replace (length (heap w) + i - length (heap w))%nat with i by lia.
      exact Hn.
Qed.

Lemma load_s1p_distinct_labels_witness :
  exists d : dict ref,
    load_s1p ["/data/run1/lna.s1p"; "/data/run2/lna.s1p"]
      (Some ["first"; "second"]) lab
      = (inr d, mkWorld (heap lab ++ [lna_data; cable_data]) (fs lab)
                  (cwd lab) (trace lab)) /\
    keys d = ["first"; "second"] /\
    forall i l n,
      nth_error ["first"; "second"] i = Some l ->
      nth_error [lna_data; cable_data] i = Some n ->
      dict_get l d = Some (length (heap lab) + i)%nat /\
      nth_error (heap lab ++ [lna_data; cable_data]) (length (heap lab) + i)
        = Some n.
Proof.
  apply (load_s1p_distinct_labels lab
           ["/data/run1/lna.s1p"; "/data/run2/lna.s1p"] ["first"; "second"]
           [lna_data; cable_data]).
  - repeat constructor.
  - reflexivity.
  - repeat constructor; simpl; intuition discriminate.
Defined.

Lemma dict_set_keys {V} (k : string) (v : V) (d : dict V) :
  keys (dict_set k v d) = keys d \/
  (~ In k (keys d) /\ keys (dict_set k v d) = keys d ++ [k]).
Proof.
  induction d as [|[k0 v0] d IH]; simpl.
  - right; split; [intros [] | reflexivity].
  - destruct (String.eqb k0 k) eqn:E; simpl; [now left |].
    apply String.eqb_neq in E.
    destruct IH as [IH | [Hn IH]].
    + left; unfold keys in *; simpl; now rewrite IH.
    + right; split.
      * intros [H | H]; [congruence | contradiction].
      * unfold keys in *; simpl; now rewrite IH.
Qed.

Lemma dict_set_NoDup {V} (k : string) (v : V) (d : dict V) :
  NoDup (keys d) -> NoDup (keys (dict_set k v d)).
Proof.
  intros H. destruct (dict_set_keys k v d) as [-> | [Hn ->]]; [exact H |].
  apply NoDup_app; [exact H | repeat constructor; intros [] |].
  intros x Hx [<- | []]. contradiction.
Qed.

Lemma dict_set_length {V} (k : string) (v : V) (d : dict V) :
  (length (dict_set k v d) <= S (length d))%nat.
Proof.
  assert (H : length (dict_set k v d) = length (keys (dict_set k v d)))
    by (unfold keys; now rewrite length_map).
  rewrite H.
  destruct (dict_set_keys k v d) as [-> | [_ ->]];
    unfold keys; rewrite ?length_app, length_map; simpl; lia.
Qed.

Lemma dict_set_keys_in {V} (k k' : string) (v : V) (d : dict V) :
  In k' (keys (dict_set k v d)) -> k' = k \/ In k' (keys d).
Proof.
  destruct (dict_set_keys k v d) as [-> | [_ ->]]; [now right |].
  intros H; apply in_app_or in H. destruct H as [H | [<- | []]]; auto.
Qed.

Lemma load_pairs_shape (pairs : list (string * string)) :
  forall (d0 : dict ref) (w : world) (d : dict ref) (w' : world),
    load_pairs pairs d0 w = (inr d, w') ->
    NoDup (keys d0) ->
    NoDup (keys d) /\
    (length d <= length d0 + length pairs)%nat /\
    forall k, In k (keys d) -> In k (keys d0) \/ In k (map snd pairs).
Proof.
  induction pairs as [|[file label] rest IH]; intros d0 w d w' H Hnd; simpl in *.
  - injection H as <- _. repeat split; auto. lia.
  - unfold bind in H.
    destruct (Network_from_file file w) as [[e|r] w1]; [discriminate |].
    apply IH in H; [| now apply dict_set_NoDup].
    destruct H as (H1 & H2 & H3). split; [exact H1 |]. split.
    + pose proof (dict_set_length label r d0). lia.
    + intros k Hk. destruct (H3 k Hk) as [Hin | Hin]; [| now right; right].
      apply dict_set_keys_in in Hin. destruct Hin as [-> | Hin]; auto.
Qed.

Lemma load_s1p_shape (w : world) (files : list string)
  (labels : option (list string)) (d : dict ref) (w' : world) :
  load_s1p files labels w = (inr d, w') ->
  NoDup (keys d) /\
  (length d <= length files)%nat /\
  forall k, In k (keys d) ->
            In k (match labels with
                  | None => map pbase files
                  | Some l => l
                  end).
Proof.
  unfold load_s1p. intros H.
  apply load_pairs_shape in H; [| constructor].
  destruct H as (H1 & H2 & H3). split; [exact H1 |]. split.
  - rewrite length_combine in H2. simpl in H2. lia.
  - intros k Hk. destruct (H3 k Hk) as [[] | Hin].
    rewrite map_snd_combine in Hin.
    rewrite <- (firstn_skipn (Nat.min (length files) (length
      match labels with None => map pbase files | Some l => l end))
      match labels with None => map pbase files | Some l => l end).
    apply in_or_app; now left.
Qed.

(** X3.  Whatever the labels, a mapping returned by the loader has
    pairwise distinct keys, all taken from the labels in use, and never
    more entries than there are files. *)
Theorem load_s1p_result_shape
  (w : world) (files : list string) (labels : option (list string))
  (d : dict ref) (w' : world) :
  load_s1p files labels w = (inr d, w') ->
  NoDup (keys d) /\
  (length d <= length files)%nat /\
  forall k, In k (keys d) ->
            In k (match labels with
                  | None => map pbase files
                  | Some l => l
                  end).
Proof. apply load_s1p_shape. Qed.

Lemma load_s1p_result_shape_witness :
  NoDup (keys [("lna.s1p", 3%nat)]) /\
  (length [("lna.s1p", 3%nat)]
   <= length ["/data/run1/lna.s1p"; "/data/run2/lna.s1p"])%nat /\
  forall k, In k (keys [("lna.s1p", 3%nat)]) ->
            In k (map pbase ["/data/run1/lna.s1p"; "/data/run2/lna.s1p"]).
Proof.
  apply (load_s1p_result_shape lab
           ["/data/run1/lna.s1p"; "/data/run2/lna.s1p"] None
           [("lna.s1p", 3%nat)]
           (mkWorld (heap lab ++ [lna_data; cable_data]) (fs lab) (cwd lab)
              (trace lab))).
  reflexivity.
Defined.

Lemma rfind_drop (c : ascii) (p : string) :
  forall j, rfind c p = Some j -> rfind c (drop (S j) p) = None.
Proof.
  induction p as [|a r IH]; intros j H; simpl in H; [discriminate |].
  destruct (rfind c r) as [j'|] eqn:E.
  - injection H as <-. simpl. apply (IH j' eq_refl).
  - destruct (Ascii.eqb a c); [| discriminate].
    injection H as <-. simpl. destruct r; exact E.
Qed.

(** The base name holds no separator. *)
Lemma pbase_has_no_sep (p : string) : rfind sep (pbase p) = None.
Proof.
  unfold pbase. destruct (rfind sep p) as [j|] eqn:E.
  - now apply rfind_drop.
  - simpl. exact E.
Qed.

(** X4.  When the labels are derived from the paths, no key of the
    mapping holds a path separator (each key is its own base name); a
    path that ends in the separator gets the empty label. *)
Theorem load_s1p_derived_labels_are_plain
  (w : world) (files : list string) (d : dict ref) (w' : world) :
  load_s1p files None w = (inr d, w') ->
  (forall k, In k (keys d) -> rfind sep k = None /\ pbase k = k) /\
  (forall dir, pbase (dir ++ "/")%string = "").
Proof.
  intros H. split.
  - intros k Hk.
    destruct (load_s1p_shape w files None d w' H) as (_ & _ & Hin).
    apply Hin, in_map_iff in Hk. destruct Hk as (file & <- & _).
    split; [apply pbase_has_no_sep |].
    apply pbase_no_sep, pbase_has_no_sep.
  - intros dir. apply (pbase_segment dir ""). reflexivity.
Qed.

Lemma load_s1p_derived_labels_are_plain_witness :
  (forall k, In k (keys [("lna.s1p", 3%nat)]) ->
             rfind sep k = None /\ pbase k = k) /\
  (forall dir, pbase (dir ++ "/")%string = "").
Proof.
  apply (load_s1p_derived_labels_are_plain lab
           ["/data/run1/lna.s1p"; "/data/run2/lna.s1p"]
           [("lna.s1p", 3%nat)]
           (mkWorld (heap lab ++ [lna_data; cable_data]) (fs lab) (cwd lab)
              (trace lab))).
  reflexivity.
Defined.

(** X5.  Two files with one base name, loaded without labels, cannot be
    given to the measured-vs-fitted plot: the collision leaves a single
    entry and the arity assertion fires before anything is drawn. *)
Theorem colliding_files_fail_the_arity_check
  (w : world) (file1 file2 : string) (n1 n2 : Network)
  (scale : string) (save_plot : bool) (save_path : option string) :
  readable w [file1; file2] [n1; n2] ->
  pbase file1 = pbase file2 ->
  (d <- load_s1p [file1; file2] None ;;
   plot_measured_vs_fitted d scale save_plot save_path) w
  = (inl (AssertionError arity_msg),
     mkWorld (heap w ++ [n1; n2]) (fs w) (cwd w) (trace w)).
Proof.
  intros Hr Heq.
  pose proof (load_s1p_run w [file1; file2] None [n1; n2]) as Hrun.
  cbv beta iota zeta in Hrun. simpl in Hrun. specialize (Hrun Hr).
  rewrite Heq, String.eqb_refl in Hrun.
  rewrite (bind_ok _ _ _ _ _ Hrun). reflexivity.
Qed.

Lemma colliding_files_fail_the_arity_check_witness :
  (d <- load_s1p ["/data/run1/lna.s1p"; "/data/run2/lna.s1p"] None ;;
   plot_measured_vs_fitted d "linear" true None) lab
  = (inl (AssertionError arity_msg),
     mkWorld (heap lab ++ [lna_data; cable_data]) (fs lab) (cwd lab)
       (trace lab)).
Proof.
  apply (colliding_files_fail_the_arity_check lab
           "/data/run1/lna.s1p" "/data/run2/lna.s1p" lna_data cable_data).
  - repeat constructor.
  - reflexivity.
Defined.

(* ================================================================== *)
(** ** The combiner: the reflection series, edges, side effects *)

Lemma combiner_fixed_point (zc zl : C) :
  Cnonzero (Csub C1 (Cmul zc zl)) ->
  Cdiv (Cmul zc C1) (Csub C1 (Cmul zc zl))
    = Cadd zc (Cmul (Cmul zc zl)
                 (Cdiv (Cmul zc C1) (Csub C1 (Cmul zc zl)))).
Proof.
  unfold Cnonzero. destruct zc as [a b], zl as [c d]; simpl.
  intros H. apply C_eq; unfold Cdiv; simpl; field;
    intros E; apply H; (etransitivity; [| exact E]); ring.
Qed.

(** X6.  Where the denominator does not vanish, the combined reflection
    solves the multiple-reflection equation: it is the cable reflection
    plus the cable reflection times the LNA reflection times itself. *)
Theorem LNA_total_reflection_series
  (w : world) (rho_cable_ntwk rho_LNA_ntwk : ref) (cable lna : Network) :
  nth_error (heap w) rho_cable_ntwk = Some cable ->
  nth_error (heap w) rho_LNA_ntwk = Some lna ->
  length (s cable) = length (s lna) ->
  exists out w',
    LNA_total_reflection rho_cable_ntwk rho_LNA_ntwk w
      = (inr (length (heap w)), w') /\
    nth_error (heap w') (length (heap w)) = Some out /\
    forall i zc zl,
      nth_error (s cable) i = Some zc -> nth_error (s lna) i = Some zl ->
      Cnonzero (Csub C1 (Cmul zc zl)) ->
      exists a, nth_error (s out) i = Some a /\
                a = Cadd zc (Cmul (Cmul zc zl) a).
Proof.
  intros Hc Hl Hs.
  do 2 eexists.
  split; [exact (LNA_total_reflection_run w _ _ cable lna Hc Hl Hs) |].
  split.
  - simpl. rewrite nth_error_app2, Nat.sub_diag by lia. reflexivity.
  - intros i zc zl Hzc Hzl Hnz; simpl.
    eexists; split; [exact (combined_nth _ _ _ _ _ Hzc Hzl) |].
    now apply combiner_fixed_point.
Qed.

Lemma LNA_total_reflection_series_witness :
  exists out w',
    LNA_total_reflection 0%nat 1%nat lab = (inr (length (heap lab)), w') /\
    nth_error (heap w') (length (heap lab)) = Some out /\
    forall i zc zl,
      nth_error (s cable_data) i = Some zc ->
      nth_error (s lna_data) i = Some zl ->
      Cnonzero (Csub C1 (Cmul zc zl)) ->
      exists a, nth_error (s out) i = Some a /\
                a = Cadd zc (Cmul (Cmul zc zl) a).
Proof.
  apply (LNA_total_reflection_series lab 0%nat 1%nat cable_data lna_data);
    reflexivity.
Defined.

(** X7.  Where the cable does not reflect, the combined reflection is
    zero, whatever the LNA does. *)
Theorem LNA_total_reflection_matched_cable
  (w : world) (rho_cable_ntwk rho_LNA_ntwk : ref) (cable lna : Network) :
  nth_error (heap w) rho_cable_ntwk = Some cable ->
  nth_error (heap w) rho_LNA_ntwk = Some lna ->
  length (s cable) = length (s lna) ->
  exists out w',
    LNA_total_reflection rho_cable_ntwk rho_LNA_ntwk w
      = (inr (length (heap w)), w') /\
    nth_error (heap w') (length (heap w)) = Some out /\
    forall i zl,
      nth_error (s cable) i = Some C0 -> nth_error (s lna) i = Some zl ->
      nth_error (s out) i = Some C0.
Proof.
  intros Hc Hl Hs.
  do 2 eexists.
  split; [exact (LNA_total_reflection_run w _ _ cable lna Hc Hl Hs) |].
  split.
  - simpl. rewrite nth_error_app2, Nat.sub_diag by lia. reflexivity.
  - intros i zl Hzc Hzl; simpl.
    rewrite (combined_nth _ _ _ _ _ Hzc Hzl). f_equal.
    apply C_eq; unfold Cdiv; simpl; unfold Rdiv; ring.
Qed.

Lemma LNA_total_reflection_matched_cable_witness :
  exists out w',
    LNA_total_reflection 1%nat 0%nat lab = (inr (length (heap lab)), w') /\
    nth_error (heap w') (length (heap lab)) = Some out /\
    forall i zl,
      nth_error (s lna_data) i = Some C0 ->
      nth_error (s cable_data) i = Some zl ->
      nth_error (s out) i = Some C0.
Proof.
  apply (LNA_total_reflection_matched_cable lab 1%nat 0%nat lna_data
           cable_data); reflexivity.
Defined.

Lemma broadcast_mismatch {A B X} (op : A -> B -> X) (xs : list A) (ys : list B) :
  length xs <> length ys -> length xs <> 1%nat -> length ys <> 1%nat ->
  broadcast op xs ys = None.
Proof.
  intros H Hx Hy. unfold broadcast.
  apply Nat.eqb_neq in H. rewrite H.
  destruct xs as [|x [|x' xs]], ys as [|y [|y' ys]]; simpl in *;
    try reflexivity; congruence.
Qed.

(** X8.  Columns of different lengths, neither of which has a single
    point, make the combiner raise a shape error; no response is
    created. *)
Theorem LNA_total_reflection_shape_error
  (w : world) (rho_cable_ntwk rho_LNA_ntwk : ref) (cable lna : Network) :
  nth_error (heap w) rho_cable_ntwk = Some cable ->
  nth_error (heap w) rho_LNA_ntwk = Some lna ->
  length (s cable) <> length (s lna) ->
  length (s cable) <> 1%nat -> length (s lna) <> 1%nat ->
  LNA_total_reflection rho_cable_ntwk rho_LNA_ntwk w = (inl ValueError, w).
Proof.
  intros Hc Hl H Hx Hy. unfold LNA_total_reflection, bind.
  rewrite (deref_some _ _ _ Hc), (deref_some _ _ _ Hl).
  now rewrite broadcast_mismatch.
Qed.

Lemma LNA_total_reflection_shape_error_witness :
  LNA_total_reflection 0%nat 2%nat bench = (inl ValueError, bench).
Proof.
  apply (LNA_total_reflection_shape_error bench 0%nat 2%nat cable_data
           sweep_data); try reflexivity; discriminate.
Defined.

Lemma silent_refl (w : world) : silent w w.
Proof. repeat split. Qed.

Lemma silent_trans (w1 w2 w3 : world) :
  silent w1 w2 -> silent w2 w3 -> silent w1 w3.
Proof. unfold silent; intros (A & B & D) (A' & B' & D'); repeat split; congruence. Qed.

Lemma silent_new_Network (sv : list C) (fv : list R) :
  keeps silent (new_Network sv fv).
Proof. intros w; repeat split. Qed.

Lemma silent_Network_from_file (file : string) :
  keeps silent (Network_from_file file).
Proof.
  intros w; unfold Network_from_file.
  destruct (dict_get (resolve w file) (fs w)) as [[| |n]|]; repeat split.
Qed.

#[export] Hint Resolve silent_refl silent_trans silent_new_Network
  silent_Network_from_file : footprint.

Lemma silent_load_pairs (pairs : list (string * string)) (d : dict ref) :
  keeps silent (load_pairs pairs d).
Proof.
  revert d; induction pairs as [|[file label] rest IH]; intros d; simpl;
    footprint.
Qed.

(** X9.  The loader and the combiner work in memory only: whatever
    their arguments and whether they fail or not, they write no file,
    print nothing, draw nothing and stay in the working directory. *)
Theorem loader_and_combiner_are_silent (w : world) :
  (forall files labels, silent w (snd (load_s1p files labels w))) /\
  (forall a b, silent w (snd (LNA_total_reflection a b w))).
Proof.
  split.
  - intros files labels. apply silent_load_pairs.
  - intros a b. revert w.
    change (keeps silent (LNA_total_reflection a b)).
    unfold LNA_total_reflection. footprint.
Qed.

(* ================================================================== *)
(** ** The power converter: decibel steps and bounds *)

Lemma ln_10_pos : 0 < ln 10.
Proof. rewrite <- ln_1. apply ln_increasing; lra. Qed.

Lemma pow10_le (x y : R) : x <= y -> Rpower 10 x <= Rpower 10 y.
Proof.
  intros [H | ->]; [| lra]. left. unfold Rpower.
  apply exp_increasing. pose proof ln_10_pos. nra.
Qed.

Lemma pow10_pos (x : R) : 0 < Rpower 10 x.
Proof. unfold Rpower; apply exp_pos. Qed.

Lemma pow10_step (x y : R) :
  Rpower 10 ((x + y) / 10) = Rpower 10 (x / 10) * Rpower 10 (y / 10).
Proof.
  replace ((x + y) / 10) with (x / 10 + y / 10) by field.
  apply Rpower_plus.
Qed.

(** X10.  Decibels add where powers multiply: raising [s11_db] by [y]
    multiplies the reflected power by [10 ** (y / 10)], on a float and
    on every point of an array; ten decibels more is ten times the
    power. *)
Theorem s11_reflected_power_db_step (p_in_k y : R) :
  (forall x,
      s11_reflected_power (Float (x + y)) p_in_k
        = vmap (fun r => r * Rpower 10 (y / 10))
            (s11_reflected_power (Float x) p_in_k)) /\
  (forall xs,
      s11_reflected_power (NDArray (map (fun x => x + y) xs)) p_in_k
        = vmap (fun r => r * Rpower 10 (y / 10))
            (s11_reflected_power (NDArray xs) p_in_k)) /\
  (forall x,
      s11_reflected_power (Float (x + 10)) p_in_k
        = vmap (fun r => r * 10) (s11_reflected_power (Float x) p_in_k)).
Proof.
  split; [| split].
  - intros x. unfold s11_reflected_power; simpl.
    rewrite pow10_step. f_equal; ring.
  - intros xs. unfold s11_reflected_power; simpl. f_equal.
    rewrite !map_map. apply map_ext; intros x.
    rewrite pow10_step. ring.
  - intros x. unfold s11_reflected_power; simpl.
    rewrite pow10_step.
    replace (10 / 10) with 1 by field.
    rewrite (Rpower_1 10) by lra. f_equal; ring.
Qed.

(** X11.  For a non-negative input power the reflected power is
    non-negative and grows with [s11_db]; for a passive device
    ([s11_db <= 0]) it never exceeds the input power.  This holds for a
    float and for every point of an array. *)
Theorem s11_reflected_power_bounds (s11_db : value) (p_in_k : R) :
  0 <= p_in_k ->
  Forall (fun r => 0 <= r) (values (s11_reflected_power s11_db p_in_k)) /\
  (Forall (fun x => x <= 0) (values s11_db) ->
   Forall (fun r => r <= p_in_k) (values (s11_reflected_power s11_db p_in_k))) /\
  (forall x y,
      x <= y ->
      forall rx ry,
        s11_reflected_power (Float x) p_in_k = Float rx ->
        s11_reflected_power (Float y) p_in_k = Float ry ->
        rx <= ry).
Proof.
  intros Hp.
  assert (Hpos : forall x, 0 <= p_in_k * Rpower 10 (x / 10)).
  { intros x. pose proof (pow10_pos (x / 10)). nra. }
  assert (Hle : forall x, x <= 0 -> p_in_k * Rpower 10 (x / 10) <= p_in_k).
  { intros x Hx.
    assert (H1 : Rpower 10 (x / 10) <= 1).
    { rewrite <- (Rpower_O 10) by lra. apply pow10_le. lra. }
    nra. }
  split; [| split].
  - destruct s11_db as [x | xs]; simpl.
    + constructor; [apply Hpos | constructor].
    + rewrite !map_map. apply Forall_forall. intros r Hr.
      apply in_map_iff in Hr. destruct Hr as (x & <- & _). apply Hpos.
  - destruct s11_db as [x | xs]; simpl; intros H.
    + inversion H; subst. constructor; [now apply Hle | constructor].
    + rewrite !map_map. apply Forall_forall. intros r Hr.
      apply in_map_iff in Hr. destruct Hr as (x & <- & Hin).
      apply Hle. rewrite Forall_forall in H. now apply H.
  - intros x y Hxy rx ry [= <-] [= <-].
    apply Rmult_le_compat_l; [exact Hp |].
    apply pow10_le. lra.
Qed.

Lemma s11_reflected_power_bounds_witness :
  Forall (fun r => 0 <= r)
    (values (s11_reflected_power (NDArray [-3; 0]) 50)) /\
  (Forall (fun x => x <= 0) (values (NDArray [-3; 0])) ->
   Forall (fun r => r <= 50)
     (values (s11_reflected_power (NDArray [-3; 0]) 50))) /\
  (forall x y,
      x <= y ->
      forall rx ry,
        s11_reflected_power (Float x) 50 = Float rx ->
        s11_reflected_power (Float y) 50 = Float ry ->
        rx <= ry).
Proof.
  apply (s11_reflected_power_bounds (NDArray [-3; 0]) 50). lra.
Defined.

(* ================================================================== *)
(** ** The fitters: what the synthesised response looks like *)

Lemma sum_squares_nonneg (a b : R) : 0 <= a * a + b * b.
Proof. nra. Qed.

Lemma Cabs_mul (a b : C) : Cabs (Cmul a b) = Cabs a * Cabs b.
Proof.
  unfold Cabs. rewrite <- sqrt_mult by apply sum_squares_nonneg.
  f_equal. simpl. ring.
Qed.

Lemma Cabs_phase (theta : R) : Cabs (Cexp (mkC 0 theta)) = 1.
Proof.
  unfold Cabs, Cexp; simpl. rewrite exp_0.
  replace (1 * cos theta * (1 * cos theta) + 1 * sin theta * (1 * sin theta))
    with (Rsqr (sin theta) + Rsqr (cos theta)) by (unfold Rsqr; ring).
  rewrite sin2_cos2. apply sqrt_1.
Qed.

Lemma Cabs_RtoC_exp (y : R) : Cabs (RtoC (exp y)) = exp y.
Proof.
  unfold Cabs; simpl.
  replace (exp y * exp y + 0 * 0) with (exp y * exp y) by ring.
  apply sqrt_square. left; apply exp_pos.
Qed.

Lemma Cabs_delay_model (A : C) (tau x : R) :
  Cabs (delay_model A tau x) = Cabs A.
Proof. unfold delay_model. rewrite Cabs_mul, Cabs_phase. ring. Qed.

Lemma Cabs_decay_model (A : C) (tau alpha x : R) :
  Cabs (decay_model A tau alpha x) = Cabs A * exp (- alpha * x).
Proof.
  unfold decay_model. now rewrite Cabs_mul, Cabs_delay_model, Cabs_RtoC_exp.
Qed.

(** X12.  Called without a save path, a delay fit that converges
    returns a response with the same modulus [|A_fitted|] at every
    frequency; a decay fit that converges returns a response with
    modulus [|A_fitted| * exp(-alpha_fitted * f)] at frequency [f]. *)
Theorem fitted_response_modulus
  (curve_fit : forall P : Type,
      (list R -> P -> list R) -> list R -> list R -> P -> option P)
  (w : world) (r : ref) (ntwk : Network) :
  nth_error (heap w) r = Some ntwk ->
  (forall gr gi gd p0 p1 p2,
      curve_fit _ reflection_model_delay (f ntwk)
        (concat_real_imag (s ntwk)) (gr, gi, gd) = Some (p0, p1, p2) ->
      exists out w',
        fit_reflection_coeff curve_fit r gr gi gd None w
          = (inr (amplitude p0 p1, p2, length (heap w)), w') /\
        nth_error (heap w') (length (heap w)) = Some out /\
        Forall (fun z => Cabs z = Cabs (amplitude p0 p1)) (s out)) /\
  (forall gr gi gd ga p0 p1 p2 p3,
      curve_fit _ reflection_model_decay (f ntwk)
        (concat_real_imag (s ntwk)) (gr, gi, gd, ga) = Some (p0, p1, p2, p3) ->
      exists out w',
        fit_exp_decay curve_fit r gr gi gd ga None w
          = (inr (amplitude p0 p1, p2, p3, length (heap w)), w') /\
        nth_error (heap w') (length (heap w)) = Some out /\
        forall i x z,
          nth_error (f ntwk) i = Some x -> nth_error (s out) i = Some z ->
          Cabs z = Cabs (amplitude p0 p1) * exp (- p3 * x)).
Proof.
  intros Hr. split.
  - intros gr gi gd p0 p1 p2 Hfit.
    do 2 eexists. split; [| split].
    + exact (fit_reflection_coeff_run curve_fit w r ntwk gr gi gd None
               p0 p1 p2 Hr Hfit).
    + apply fitted_world_new.
    + simpl. apply Forall_forall. intros z Hz.
      apply in_map_iff in Hz. destruct Hz as (x & <- & _).
      apply Cabs_delay_model.
  - intros gr gi gd ga p0 p1 p2 p3 Hfit.
    do 2 eexists. split; [| split].
    + exact (fit_exp_decay_run curve_fit w r ntwk gr gi gd ga None
               p0 p1 p2 p3 Hr Hfit).
    + apply fitted_world_new.
    + simpl. intros i x z Hx Hz.
      rewrite (nth_error_map_some _ _ _ _ Hx) in Hz. injection Hz as <-.
      apply Cabs_decay_model.
Qed.

Lemma fitted_response_modulus_witness :
  exists out w',
    fit_reflection_coeff echo_fit 0%nat (1 / 2) 0 1 None lab
      = (inr (amplitude (1 / 2) 0, 1, length (heap lab)), w') /\
    nth_error (heap w') (length (heap lab)) = Some out /\
    Forall (fun z => Cabs z = Cabs (amplitude (1 / 2) 0)) (s out).
Proof.
  exact (proj1 (fitted_response_modulus echo_fit lab 0%nat cable_data
                  eq_refl) (1 / 2) 0 1 (1 / 2) 0 1 eq_refl).
Defined.

Lemma decay_model_alpha_0 (A : C) (tau x : R) :
  decay_model A tau 0 x = delay_model A tau x.
Proof.
  unfold decay_model.
  replace (- 0 * x) with 0 by ring. rewrite exp_0.
  apply Cmul_1_r.
Qed.

(** X13.  With a decay coefficient of zero the decay model is the delay
    model: the two inner model functions return the same vector, and,
    called without a save path, a decay fit that ends at [alpha = 0]
    returns the same response as a delay fit that ends at the same
    amplitude and delay. *)
Theorem decay_fit_without_decay
  (curve_fit : forall P : Type,
      (list R -> P -> list R) -> list R -> list R -> P -> option P)
  (w : world) (r : ref) (ntwk : Network)
  (gr gi gd ga p0 p1 p2 : R) :
  nth_error (heap w) r = Some ntwk ->
  curve_fit _ reflection_model_decay (f ntwk)
    (concat_real_imag (s ntwk)) (gr, gi, gd, ga) = Some (p0, p1, p2, 0) ->
  curve_fit _ reflection_model_delay (f ntwk)
    (concat_real_imag (s ntwk)) (gr, gi, gd) = Some (p0, p1, p2) ->
  (forall freq ar ai t,
      reflection_model_decay freq (ar, ai, t, 0)
        = reflection_model_delay freq (ar, ai, t)) /\
  exists out w1 w2,
    fit_exp_decay curve_fit r gr gi gd ga None w
      = (inr (amplitude p0 p1, p2, 0, length (heap w)), w1) /\
    fit_reflection_coeff curve_fit r gr gi gd None w
      = (inr (amplitude p0 p1, p2, length (heap w)), w2) /\
    nth_error (heap w1) (length (heap w)) = Some out /\
    nth_error (heap w2) (length (heap w)) = Some out.
Proof.
  intros Hr Hdecay Hdelay. split.
  - intros freq ar ai t.
    rewrite reflection_model_decay_spec, reflection_model_delay_spec.
    f_equal. apply map_ext; intros x. apply decay_model_alpha_0.
  - exists (mkNetwork (f ntwk) (map (delay_model (amplitude p0 p1) p2) (f ntwk))).
    do 2 eexists. split; [| split; [| split]].
    + exact (fit_exp_decay_run curve_fit w r ntwk gr gi gd ga None
               p0 p1 p2 0 Hr Hdecay).
    + exact (fit_reflection_coeff_run curve_fit w r ntwk gr gi gd None
               p0 p1 p2 Hr Hdelay).
    + rewrite fitted_world_new. do 2 f_equal.
      apply map_ext; intros x. apply decay_model_alpha_0.
    + apply fitted_world_new.
Qed.

Lemma decay_fit_without_decay_witness :
  (forall freq ar ai t,
      reflection_model_decay freq (ar, ai, t, 0)
        = reflection_model_delay freq (ar, ai, t)) /\
  exists out w1 w2,
    fit_exp_decay echo_fit 0%nat (1 / 2) 0 1 0 None lab
      = (inr (amplitude (1 / 2) 0, 1, 0, length (heap lab)), w1) /\
    fit_reflection_coeff echo_fit 0%nat (1 / 2) 0 1 None lab
      = (inr (amplitude (1 / 2) 0, 1, length (heap lab)), w2) /\
    nth_error (heap w1) (length (heap lab)) = Some out /\
    nth_error (heap w2) (length (heap lab)) = Some out.
Proof.
  exact (decay_fit_without_decay echo_fit lab 0%nat cable_data
           (1 / 2) 0 1 0 (1 / 2) 0 1 eq_refl eq_refl eq_refl).
Defined.

(* ================================================================== *)
(** ** The measured-vs-fitted plot: composition, errors, the ratio *)

Lemma plot_measured_vs_fitted_ok (w : world) (k0 k1 : string) (r0 r1 : ref)
  (measured fitted : Network) (scale : string)
  (save_plot : bool) (save_path : option string) :
  k0 <> k1 ->
  nth_error (heap w) r0 = Some measured ->
  nth_error (heap w) r1 = Some fitted ->
  wf_Network measured -> wf_Network fitted ->
  length (f measured) = length (f fitted) ->
  exists w' tail,
    plot_measured_vs_fitted [(k0, r0); (k1, r1)] scale save_plot save_path w
      = (inr tt, w') /\
    heap w' = heap w /\
    trace w'
      = trace w ++ measured_vs_fitted_events k0 k1 measured fitted scale
          ++ tail.
Proof.
  intros Hk H0 H1 W0 W1 Hf.
  unfold plot_measured_vs_fitted.
  run_with ltac:(apply (draw_measured_vs_fitted_run w k0 k1 r0 r1
                          measured fitted scale); assumption).
  destruct (save_or_warn_run
              (add_events w
                 (measured_vs_fitted_events k0 k1 measured fitted scale))
              save_plot save_path)
    as (w1 & Hrun & Hh & _ & evs & Htr).
  run_with ltac:(exact Hrun).
  exists (add_events w1 [ShowFigure]), (evs ++ [ShowFigure]).
  split; [reflexivity |]. split; [exact Hh |].
  simpl. rewrite Htr. simpl. now rewrite <- !app_assoc.
Qed.

(** X14.  A response produced by either fitter, called without a save
    path, can be plotted against the measurement it was fitted to: the
    fitted response lives on the measurement's grid, so a plot that
    saves no figure (the save flag off, or no save path) raises no
    shape error and draws the measurement first and the fit second. *)
Theorem fitted_response_plots_against_measurement
  (curve_fit : forall P : Type,
      (list R -> P -> list R) -> list R -> list R -> P -> option P)
  (w : world) (r : ref) (ntwk : Network) (scale : string)
  (save_plot : bool) (save_path : option string) :
  nth_error (heap w) r = Some ntwk ->
  wf_Network ntwk ->
  save_plot = false \/ save_path = None ->
  (forall gr gi gd popt,
      curve_fit _ reflection_model_delay (f ntwk)
        (concat_real_imag (s ntwk)) (gr, gi, gd) = Some popt ->
      exists out w' tail,
        (res <- fit_reflection_coeff curve_fit r gr gi gd None ;;
         plot_measured_vs_fitted [("measured", r); ("fitted", snd res)]
           scale save_plot save_path) w = (inr tt, w') /\
        nth_error (heap w') (length (heap w)) = Some out /\
        trace w'
          = trace w
            ++ measured_vs_fitted_events "measured" "fitted" ntwk out scale
            ++ tail) /\
  (forall gr gi gd ga popt,
      curve_fit _ reflection_model_decay (f ntwk)
        (concat_real_imag (s ntwk)) (gr, gi, gd, ga) = Some popt ->
      exists out w' tail,
        (res <- fit_exp_decay curve_fit r gr gi gd ga None ;;
         plot_measured_vs_fitted [("measured", r); ("fitted", snd res)]
           scale save_plot save_path) w = (inr tt, w') /\
        nth_error (heap w') (length (heap w)) = Some out /\
        trace w'
          = trace w
            ++ measured_vs_fitted_events "measured" "fitted" ntwk out scale
            ++ tail).
Proof.
  intros Hr Hwf _.
  assert (Hplot : forall model,
    exists w' tail,
      plot_measured_vs_fitted
        [("measured", r); ("fitted", length (heap w))]
        scale save_plot save_path
        (fitted_world w (mkNetwork (f ntwk) (map model (f ntwk))))
        = (inr tt, w') /\
      nth_error (heap w') (length (heap w))
        = Some (mkNetwork (f ntwk) (map model (f ntwk))) /\
      trace w'
        = trace w
          ++ measured_vs_fitted_events "measured" "fitted" ntwk
               (mkNetwork (f ntwk) (map model (f ntwk))) scale
          ++ tail).
  { intros model.
    destruct (plot_measured_vs_fitted_ok
                (fitted_world w (mkNetwork (f ntwk) (map model (f ntwk))))
                "measured" "fitted" r (length (heap w)) ntwk
                (mkNetwork (f ntwk) (map model (f ntwk)))
                scale save_plot save_path)
      as (w' & tail & Hrun & Hh & Htr).
    - discriminate.
    - simpl. rewrite nth_error_app1; [exact Hr |].
      apply nth_error_Some; congruence.
    - apply fitted_world_new.
    - exact Hwf.
    - unfold wf_Network; simpl. now rewrite length_map.
    - reflexivity.
    - exists w', tail. split; [exact Hrun |]. split; [| exact Htr].
      rewrite Hh. apply fitted_world_new. }
  split.
  - intros gr gi gd [[p0 p1] p2] Hfit.
    destruct (Hplot (delay_model (amplitude p0 p1) p2))
      as (w' & tail & Hrun & Hnew & Htr).
    eexists; exists w', tail. split; [| split; [exact Hnew | exact Htr]].
    rewrite (bind_ok _ _ _ _ _
               (fit_reflection_coeff_run curve_fit w r ntwk gr gi gd None
                  p0 p1 p2 Hr Hfit)).
    exact Hrun.
  - intros gr gi gd ga [[[p0 p1] p2] p3] Hfit.
    destruct (Hplot (decay_model (amplitude p0 p1) p2 p3))
      as (w' & tail & Hrun & Hnew & Htr).
    eexists; exists w', tail. split; [| split; [exact Hnew | exact Htr]].
    rewrite (bind_ok _ _ _ _ _
               (fit_exp_decay_run curve_fit w r ntwk gr gi gd ga None
                  p0 p1 p2 p3 Hr Hfit)).
    exact Hrun.
Qed.

Lemma fitted_response_plots_against_measurement_witness :
  exists out w' tail,
    (res <- fit_reflection_coeff echo_fit 0%nat (1 / 2) 0 1 None ;;
     plot_measured_vs_fitted [("measured", 0%nat); ("fitted", snd res)]
       "log" true None) lab = (inr tt, w') /\
    nth_error (heap w') (length (heap lab)) = Some out /\
    trace w'
      = trace lab
        ++ measured_vs_fitted_events "measured" "fitted" cable_data out "log"
        ++ tail.
Proof.
  exact (proj1 (fitted_response_plots_against_measurement echo_fit lab 0%nat
                  cable_data "log" true None eq_refl eq_refl
                  (or_intror eq_refl))
           (1 / 2) 0 1 (1 / 2, 0, 1) eq_refl).
Defined.

(** X15.  When the two responses have different numbers of points,
    neither of them a single point, the measured-vs-fitted plot raises a
    shape error while computing the ratio, before any figure is
    created. *)
Theorem plot_measured_vs_fitted_shape_error
  (w : world) (k0 k1 : string) (r0 r1 : ref) (measured fitted : Network)
  (scale : string) (save_plot : bool) (save_path : option string) :
  k0 <> k1 ->
  nth_error (heap w) r0 = Some measured ->
  nth_error (heap w) r1 = Some fitted ->
  length (s measured) <> length (s fitted) ->
  length (s measured) <> 1%nat -> length (s fitted) <> 1%nat ->
  plot_measured_vs_fitted [(k0, r0); (k1, r1)] scale save_plot save_path w
    = (inl ValueError, w).
Proof.
  intros Hk H0 H1 Hne Hm Hf.
  assert (E : String.eqb k0 k1 = false) by (now apply String.eqb_neq).
  unfold plot_measured_vs_fitted.
  erewrite bind_err; [reflexivity |].
  unfold draw_measured_vs_fitted.
  run_with reflexivity. cbv zeta.
  run_with reflexivity.
  run_with reflexivity.
  run_with ltac:(apply getitem_run; simpl; rewrite String.eqb_refl;
                 reflexivity).
  run_with ltac:(apply getitem_run; simpl; rewrite E, String.eqb_refl;
                 reflexivity).
  run_with ltac:(apply deref_some; eassumption).
  run_with ltac:(apply deref_some; eassumption).
  rewrite broadcast_mismatch by (now rewrite !magnitude_length).
  reflexivity.
Qed.

Lemma plot_measured_vs_fitted_shape_error_witness :
  plot_measured_vs_fitted [("measured", 0%nat); ("fitted", 2%nat)]
    "linear" true (Some "fit.png") bench
  = (inl ValueError, bench).
Proof.
  apply (plot_measured_vs_fitted_shape_error bench "measured" "fitted"
           0%nat 2%nat cable_data sweep_data);
    try reflexivity; discriminate.
Defined.

Lemma ratio_panel_values (mm mf : list R) (i : nat) (a b : R) :
  nth_error mm i = Some a -> nth_error mf i = Some b ->
  nth_error (map (fun r => 1 / r) (zip_with Rdiv mm mf)) i = Some (b / a).
Proof.
  intros Ha Hb.
  rewrite (nth_error_map_some _ _ _ _ (zip_with_nth Rdiv _ _ _ _ _ Ha Hb)).
  f_equal. unfold Rdiv at 1. rewrite Rinv_div. ring.
Qed.

(** X16.  The lower panel of the measured-vs-fitted figure shows
    fitted over measured: the code draws the reciprocal of
    measured/fitted, which at every point with non-zero magnitudes is
    the fitted magnitude divided by the measured one. *)
Theorem ratio_panel_is_fitted_over_measured
  (w : world) (k0 k1 : string) (r0 r1 : ref) (measured fitted : Network)
  (scale : string) (save_plot : bool) (save_path : option string) :
  k0 <> k1 ->
  nth_error (heap w) r0 = Some measured ->
  nth_error (heap w) r1 = Some fitted ->
  wf_Network measured -> wf_Network fitted ->
  length (f measured) = length (f fitted) ->
  exists w' y,
    plot_measured_vs_fitted [(k0, r0); (k1, r1)] scale save_plot save_path w
      = (inr tt, w') /\
    In (Plot 1 (MHz (f measured)) y None "C2" "-") (trace w') /\
    length y = length (f measured) /\
    forall i a b,
      nth_error (magnitude scale (s measured)) i = Some a ->
      nth_error (magnitude scale (s fitted)) i = Some b ->
      a <> 0 -> b <> 0 ->
      nth_error y i = Some (b / a).
Proof.
  intros Hk H0 H1 W0 W1 Hf.
  destruct (plot_measured_vs_fitted_ok w k0 k1 r0 r1 measured fitted scale
              save_plot save_path Hk H0 H1 W0 W1 Hf)
    as (w' & tail & Hrun & _ & Htr).
  exists w'.
  exists (map (fun r => 1 / r)
            (zip_with Rdiv (magnitude scale (s measured))
               (magnitude scale (s fitted)))).
  split; [exact Hrun |]. split; [| split].
  - rewrite Htr. apply in_or_app; right. apply in_or_app; left.
    unfold measured_vs_fitted_events. simpl. auto.
  - rewrite length_map, zip_with_length, magnitude_length.
    + symmetry; exact W0.
    + rewrite !magnitude_length. unfold wf_Network in *; congruence.
  - intros i a b Ha Hb _ _. now apply ratio_panel_values.
Qed.

Lemma ratio_panel_is_fitted_over_measured_witness :
  exists w' y,
    plot_measured_vs_fitted [("measured", 0%nat); ("fitted", 1%nat)]
      "linear" false None lab = (inr tt, w') /\
    In (Plot 1 (MHz (f cable_data)) y None "C2" "-") (trace w') /\
    length y = length (f cable_data) /\
    forall i a b,
      nth_error (magnitude "linear" (s cable_data)) i = Some a ->
      nth_error (magnitude "linear" (s lna_data)) i = Some b ->
      a <> 0 -> b <> 0 ->
      nth_error y i = Some (b / a).
Proof.
  apply (ratio_panel_is_fitted_over_measured lab "measured" "fitted"
           0%nat 1%nat cable_data lna_data "linear" false None);
    try reflexivity.
  discriminate.
Defined.

(* ================================================================== *)
(** ** Saving: flag off, and with a path *)

Lemma no_write_smith_individual (suffix : string) (item : string * ref) :
  keeps no_write (smith_individual suffix false item).
Proof. destruct item as [l r]. unfold smith_individual. footprint. Qed.

Lemma no_write_framed_off (draw : M unit) (save_path : option string) :
  keeps no_write draw -> keeps no_write (framed draw false save_path).
Proof.
  intros H w. unfold framed, bind. specialize (H w).
  destruct (draw w) as [[e|[]] w1]; simpl in *; [exact H |].
  apply no_write_trans with w1; [exact H |].
  split; [reflexivity |]. exists [ShowFigure]; split; reflexivity.
Qed.

(** X17.  With the save flag off none of the three plotting routines
    touches the file system, whether a path or directory is given or
    not: no figure is saved and no directory is created. *)
Theorem plots_write_nothing_with_save_off
  (color_cycle : list string) (angle_deg : C -> R) (w : world) :
  (forall d scale save_path,
      no_write w (snd (plot_measured_vs_fitted d scale false save_path w))) /\
  (forall d scale show_phase save_path,
      no_write w
        (snd (plot_s11_reflect color_cycle angle_deg d scale false show_phase
                save_path w))) /\
  (forall d suffix save_dir individual,
      no_write w
        (snd (plot_smith_chart d suffix false save_dir individual w))).
Proof.
  split; [| split].
  - intros d scale save_path.
    apply (no_write_framed_off (draw_measured_vs_fitted d scale) save_path).
    apply no_write_draw_measured_vs_fitted.
  - intros d scale show_phase save_path.
    apply (no_write_framed_off
             (draw_s11_reflect color_cycle angle_deg d scale show_phase)
             save_path).
    apply no_write_draw_s11_reflect.
  - intros d suffix save_dir individual. revert w.
    change (keeps no_write
              (plot_smith_chart d suffix false save_dir individual)).
    unfold plot_smith_chart. footprint.
    apply no_write_smith_individual.
Qed.

Lemma same_cwd_refl (w : world) : same_cwd w w.
Proof. reflexivity. Qed.

Lemma same_cwd_trans (w1 w2 w3 : world) :
  same_cwd w1 w2 -> same_cwd w2 w3 -> same_cwd w1 w3.
Proof. unfold same_cwd; congruence. Qed.

Lemma same_cwd_emit (e : event) : keeps same_cwd (emit e).
Proof. intros w; reflexivity. Qed.

Lemma same_cwd_ax_plot axis x y label color ls :
  keeps same_cwd (ax_plot axis x y label color ls).
Proof.
  unfold ax_plot. destruct (Nat.eqb _ _); intros w; reflexivity.
Qed.

#[export] Hint Resolve same_cwd_refl same_cwd_trans same_cwd_emit
  same_cwd_ax_plot : footprint.

Lemma same_cwd_draw_measured_vs_fitted d scale :
  keeps same_cwd (draw_measured_vs_fitted d scale).
Proof. unfold draw_measured_vs_fitted. footprint. Qed.

Lemma same_cwd_plot_s11_trace cc ang scale show_phase item :
  keeps same_cwd (plot_s11_trace cc ang scale show_phase item).
Proof.
  destruct item as [idx [label r]]. unfold plot_s11_trace. footprint.
Qed.

Lemma same_cwd_subplots (cc : list string) (nrows : nat) :
  keeps same_cwd (subplots cc nrows).
Proof. unfold subplots. footprint. Qed.

Lemma same_cwd_draw_s11_reflect cc ang d scale show_phase :
  keeps same_cwd (draw_s11_reflect cc ang d scale show_phase).
Proof.
  unfold draw_s11_reflect. footprint.
  - apply same_cwd_subplots.
  - apply same_cwd_plot_s11_trace.
Qed.

Lemma dict_get_set_other {V} (k k' : string) (v : V) (d : dict V) :
  k <> k' -> dict_get k (dict_set k' v d) = dict_get k d.
Proof.
  intros H. rewrite dict_get_set.
  destruct (String.eqb k' k) eqn:E; [| reflexivity].
  apply String.eqb_eq in E; congruence.
Qed.

(* ================================================================== *)
(** ** The multi-trace plot: one coloured trace per entry *)

Lemma add_events_nil (w : world) : add_events w [] = w.
Proof. unfold add_events. rewrite app_nil_r. now destruct w. Qed.

Lemma plot_s11_trace_run (cc : list string) (ang : C -> R) (scale : string)
  (show_phase : bool) (idx : nat) (label : string) (r : ref) (n : Network)
  (w : world) :
  cc <> [] ->
  nth_error (heap w) r = Some n -> wf_Network n ->
  plot_s11_trace cc ang scale show_phase (idx, (label, r)) w
    = (inr tt,
       add_events w (s11_trace_events cc ang scale show_phase idx label n)).
Proof.
  intros Hcc Hr Hwf.
  assert (Hlen : length cc <> 0%nat) by (destruct cc; simpl; congruence).
  unfold plot_s11_trace.
  run_with ltac:(apply deref_some; eassumption). cbv zeta.
  apply Nat.eqb_neq in Hlen as Hb. rewrite Hb.
  run_with reflexivity.
  run_with ltac:(rewrite (nth_error_nth' cc ""
                            (Nat.mod_upper_bound idx (length cc) Hlen));
                 reflexivity).
  run_with ltac:(apply ax_plot_run;
                 rewrite MHz_length, magnitude_length; exact Hwf).
  unfold s11_trace_events.
  destruct show_phase; simpl when.
  - rewrite ax_plot_run by (rewrite MHz_length, length_map; exact Hwf).
    now rewrite add_events_app.
  - reflexivity.
Qed.

Lemma plot_s11_loop (cc : list string) (ang : C -> R) (scale : string)
  (show_phase : bool) (d : dict ref) :
  cc <> [] ->
  forall (nets : list Network) (idx : nat) (w : world),
    holds w d nets ->
    for_each (enumerate_from idx d) (plot_s11_trace cc ang scale show_phase) w
      = (inr tt,
         add_events w (s11_events cc ang scale show_phase idx d nets)).
Proof.
  intros Hcc. unfold holds.
  induction d as [|[label r] d IH]; intros nets idx w H;
    inversion H as [|? n ? nets' [Hr Hwf] Hrest]; subst; simpl.
  - now rewrite add_events_nil.
  - run_with ltac:(apply (plot_s11_trace_run cc ang scale show_phase idx
                            label r n w Hcc Hr Hwf)).
    rewrite (IH nets' (S idx)) by exact Hrest.
    now rewrite add_events_app.
Qed.

Lemma subplots_run (cc : list string) (nrows : nat) (w : world) :
  cc <> [] ->
  subplots cc nrows w = (inr tt, add_events w [Subplots nrows]).
Proof.
  intros Hcc. unfold subplots.
  destruct cc; [congruence | reflexivity].
Qed.

(** X19.  For a non-empty palette and a collection of well-formed
    responses the multi-trace plot, when it saves no figure (the save
    flag off, or no save path), returns normally, having drawn on one
    panel, or two with the phase on, one magnitude trace per entry in
    the order of the collection (and one phase trace with the phase on),
    each in the colour found at the entry's position modulo the palette
    length; entries whose positions differ by the palette length share
    their colour. *)
Theorem plot_s11_reflect_traces
  (color_cycle : list string) (angle_deg : C -> R) (w : world)
  (d : dict ref) (nets : list Network) (scale : string)
  (save_plot show_phase : bool) (save_path : option string) :
  color_cycle <> [] ->
  holds w d nets ->
  save_plot = false \/ save_path = None ->
  (exists w' tail,
      plot_s11_reflect color_cycle angle_deg d scale save_plot show_phase
        save_path w = (inr tt, w') /\
      trace w'
        = trace w
          ++ Subplots (if show_phase then 2 else 1)
             :: s11_events color_cycle angle_deg scale show_phase 0 d nets
          ++ tail) /\
  (forall idx label n,
      s11_trace_events color_cycle angle_deg scale show_phase
        (idx + length color_cycle) label n
      = s11_trace_events color_cycle angle_deg scale show_phase idx label n).
Proof.
  intros Hcc Hd _. split.
  - unfold plot_s11_reflect, draw_s11_reflect.
    assert (Hdraw :
      (subplots color_cycle (if show_phase then 2%nat else 1%nat) ;;;
       for_each (enumerate d)
         (plot_s11_trace color_cycle angle_deg scale show_phase)) w
      = (inr tt,
         add_events w
           (Subplots (if show_phase then 2 else 1)
              :: s11_events color_cycle angle_deg scale show_phase 0 d nets))).
    { run_with ltac:(apply subplots_run; exact Hcc).
      unfold enumerate.
      rewrite (plot_s11_loop color_cycle angle_deg scale show_phase d Hcc nets)
        by exact Hd.
      now rewrite add_events_app. }
    cbv zeta. run_with ltac:(exact Hdraw).
    destruct (save_or_warn_run
                (add_events w
                   (Subplots (if show_phase then 2 else 1)
                      :: s11_events color_cycle angle_deg scale show_phase 0
                           d nets))
                save_plot save_path)
      as (w1 & Hrun & _ & _ & evs & Htr).
    run_with ltac:(exact Hrun).
    exists (add_events w1 [ShowFigure]), (evs ++ [ShowFigure]).
    split; [reflexivity |].
    simpl. rewrite Htr. simpl. now rewrite <- !app_assoc.
  - intros idx label n. unfold s11_trace_events.
    replace ((idx + length color_cycle) mod length color_cycle)
      with (idx mod length color_cycle); [reflexivity |].
    replace (idx + length color_cycle)%nat
      with (idx + 1 * length color_cycle)%nat by lia.
    symmetry. apply Nat.Div0.mod_add.
Qed.

Lemma plot_s11_reflect_traces_witness :
  (exists w' tail,
      plot_s11_reflect ["C0"; "C1"] re
        [("cable", 0%nat); ("lna", 1%nat); ("sweep", 2%nat)] "log"
        false true None bench = (inr tt, w') /\
      trace w'
        = trace bench
          ++ Subplots 2
             :: s11_events ["C0"; "C1"] re "log" true 0
                  [("cable", 0%nat); ("lna", 1%nat); ("sweep", 2%nat)]
                  [cable_data; lna_data; sweep_data]
          ++ tail) /\
  (forall idx label n,
      s11_trace_events ["C0"; "C1"] re "log" true
        (idx + length ["C0"; "C1"]) label n
      = s11_trace_events ["C0"; "C1"] re "log" true idx label n).
Proof.
  apply (plot_s11_reflect_traces ["C0"; "C1"] re bench
           [("cable", 0%nat); ("lna", 1%nat); ("sweep", 2%nat)]
           [cable_data; lna_data; sweep_data] "log" false true None).
  - discriminate.
  - repeat constructor.
  - now left.
Defined.

(* ================================================================== *)
(** ** The Smith chart: directory, number of files, file names *)

Lemma no_makedirs_overlay (d : dict ref) :
  forallb (fun e => negb (is_makedirs e))
    (map (fun '(label, r) => SmithPlot label r) d) = true.
Proof. induction d as [|[l r] d IH]; simpl; auto. Qed.

Lemma no_makedirs_trace_charts (d : dict ref) (suffix : string) :
  forallb (fun e => negb (is_makedirs e)) (trace_chart_events d suffix) = true.
Proof. induction d as [|[l r] d IH]; simpl; auto. Qed.

Lemma forallb_no_makedirs (evs : list event) (x : string) :
  forallb (fun e => negb (is_makedirs e)) evs = true -> ~ In (MakeDirs x) evs.
Proof.
  intros H Hin. rewrite forallb_forall in H.
  specialize (H _ Hin). discriminate H.
Qed.

Lemma dict_set_keeps_present {V} (k k' : string) (v : V) (t : dict V) :
  dict_get k t <> None -> dict_get k (dict_set k' v t) <> None.
Proof.
  intros H. rewrite dict_get_set.
  destruct (String.eqb k' k); [discriminate | exact H].
Qed.

Lemma trace_chart_fs_keeps_present (w : world) (d : dict ref)
  (suffix : string) (t : dict node) (k : string) :
  dict_get k t <> None -> dict_get k (trace_chart_fs w d suffix t) <> None.
Proof.
  revert t; induction d as [|[l r] d IH]; intros t H; simpl; [exact H |].
  apply IH. now apply dict_set_keeps_present.
Qed.

(** X20.  Whenever a Smith chart call with the save flag on returns,
    the save directory (the working directory when none is given)
    exists, and the routine has created it exactly when it was missing
    beforehand. *)
Theorem smith_chart_creates_missing_directory
  (w : world) (d : dict ref) (suffix : string) (save_dir : option string)
  (individual : bool) (w' : world) :
  plot_smith_chart d suffix true save_dir individual w = (inr tt, w') ->
  exists evs,
    trace w' = trace w ++ evs /\
    dict_get (resolve w (chart_dir w save_dir)) (fs w') <> None /\
    forall x,
      In (MakeDirs x) evs
      <-> (x = chart_dir w save_dir
           /\ dict_get (resolve w (chart_dir w save_dir)) (fs w) = None).
Proof.
  intros H. destruct (plot_smith_chart_inv _ _ _ _ _ _ H) as [Hdir ->].
  apply String.eqb_neq in Hdir.
  exists (combined_chart_events w d suffix save_dir
            ++ (if individual then trace_chart_events d suffix else [])).
  split; [reflexivity |]. split.
  - cbn [fs].
    assert (Hc : dict_get (resolve w (chart_dir w save_dir))
                   (combined_chart_fs w suffix save_dir) <> None).
    { unfold combined_chart_fs; cbv zeta.
      apply dict_set_keeps_present. unfold dir_missing. rewrite Hdir.
      destruct (dict_get (resolve w (chart_dir w save_dir)) (fs w)) eqn:E.
      - rewrite E; discriminate.
      - rewrite dict_get_set, String.eqb_refl; discriminate. }
    destruct individual; [| exact Hc].
    now apply trace_chart_fs_keeps_present.
  - intros x. unfold combined_chart_events, dir_missing; cbv zeta.
    rewrite Hdir.
    assert (Htail : ~ In (MakeDirs x)
                      (if individual then trace_chart_events d suffix else []))
      by (destruct individual;
          [apply forallb_no_makedirs, no_makedirs_trace_charts | intros []]).
    pose proof (forallb_no_makedirs _ x (no_makedirs_overlay d)) as Hover.
    rewrite !in_app_iff.
    destruct (dict_get (resolve w (chart_dir w save_dir)) (fs w)) eqn:E;
      simpl; (split; [intros H0 | intros [Hx HN]]).
    + exfalso. intuition discriminate.
    + discriminate HN.
    + split; [| reflexivity].
      intuition (try discriminate; try congruence).
    + subst x. auto 10.
Qed.

Lemma smith_chart_creates_missing_directory_witness :
  exists evs,
    trace (snd (plot_smith_chart [("cable", 0%nat)] "LNA" true
                  (Some "charts/./smith") false lab))
      = trace lab ++ evs /\
    dict_get (resolve lab (chart_dir lab (Some "charts/./smith")))
      (fs (snd (plot_smith_chart [("cable", 0%nat)] "LNA" true
                  (Some "charts/./smith") false lab)))
      <> None /\
    forall x,
      In (MakeDirs x) evs
      <-> (x = chart_dir lab (Some "charts/./smith")
           /\ dict_get (resolve lab (chart_dir lab (Some "charts/./smith")))
                (fs lab) = None).
Proof.
  apply (smith_chart_creates_missing_directory lab [("cable", 0%nat)] "LNA"
           (Some "charts/./smith") false
           (snd (plot_smith_chart [("cable", 0%nat)] "LNA" true
                   (Some "charts/./smith") false lab))).
  apply returns_eta. reflexivity.
Defined.

Lemma savefig_count_overlay (d : dict ref) :
  filter is_savefig (map (fun '(label, r) => SmithPlot label r) d) = [].
Proof. induction d as [|[l r] d IH]; simpl; auto. Qed.

Lemma savefig_count_trace_charts (d : dict ref) (suffix : string) :
  length (filter is_savefig (trace_chart_events d suffix)) = length d.
Proof. induction d as [|[l r] d IH]; simpl; auto. Qed.

(** X21.  Whenever a Smith chart call with the save flag on returns,
    it has saved one combined chart and, with the individual option on,
    one more chart per entry of the collection; with the option off the
    combined chart is the only save. *)
Theorem smith_chart_number_of_files
  (w : world) (d : dict ref) (suffix : string) (save_dir : option string)
  (individual : bool) (w' : world) :
  plot_smith_chart d suffix true save_dir individual w = (inr tt, w') ->
  exists evs,
    trace w' = trace w ++ evs /\
    length (filter is_savefig evs)
      = if individual then S (length d) else 1%nat.
Proof.
  intros H. destruct (plot_smith_chart_inv _ _ _ _ _ _ H) as [_ ->].
  exists (combined_chart_events w d suffix save_dir
            ++ (if individual then trace_chart_events d suffix else [])).
  split; [reflexivity |].
  unfold combined_chart_events; cbv zeta.
  rewrite !filter_app, !length_app, savefig_count_overlay.
  destruct (dir_missing w (chart_dir w save_dir)); simpl;
    destruct individual; simpl;
    rewrite ?savefig_count_trace_charts; reflexivity.
Qed.

Lemma smith_chart_number_of_files_witness :
  exists evs,
    trace (snd (plot_smith_chart [("cable", 0%nat); ("lna", 1%nat)] "LNA"
                  true None true lab))
      = trace lab ++ evs /\
    length (filter is_savefig evs) = 3%nat.
Proof.
  apply (smith_chart_number_of_files lab [("cable", 0%nat); ("lna", 1%nat)]
           "LNA" None true
           (snd (plot_smith_chart [("cable", 0%nat); ("lna", 1%nat)] "LNA"
                   true None true lab))).
  apply returns_eta. reflexivity.
Defined.

Lemma replace_removes (a b : ascii) (p : string) :
  a <> b -> has_char a (replace a b p) = false.
Proof.
  intros Hab; induction p as [|c p IH]; simpl; [reflexivity |].
  rewrite IH, orb_false_r.
  destruct (Ascii.eqb c a) eqn:E.
  - apply Ascii.eqb_neq. congruence.
  - exact E.
Qed.

Lemma replace_length (a b : ascii) (p : string) :
  String.length (replace a b p) = String.length p.
Proof. induction p as [|c p IH]; simpl; [reflexivity | now rewrite IH]. Qed.

Lemma trace_chart_events_entry (d : dict ref) (suffix label : string)
  (r : ref) :
  In (label, r) d ->
  exists pre post,
    trace_chart_events d suffix
      = pre ++ [Subplots 1; SmithPlot label r;
                SaveFig (trace_chart_name suffix label)] ++ post.
Proof.
  intros Hin. apply in_split in Hin. destruct Hin as (d1 & d2 & ->).
  exists (trace_chart_events d1 suffix), (trace_chart_events d2 suffix).
  unfold trace_chart_events. rewrite flat_map_app. reflexivity.
Qed.

(** X22.  Whenever a Smith chart call with the save flag and the
    individual option on returns, the chart of every entry has been
    saved, right after it was drawn, under a name that holds no space,
    whatever the suffix and the label; two entries whose labels differ
    only in spaces against underscores have their charts saved to one
    and the same path, which holds a single image afterwards. *)
Theorem smith_chart_names_have_no_space
  (w : world) (d : dict ref) (suffix : string) (save_dir : option string)
  (w' : world) :
  plot_smith_chart d suffix true save_dir true w = (inr tt, w') ->
  exists evs,
    trace w' = trace w ++ evs /\
    (forall label r,
        In (label, r) d ->
        exists p pre post,
          evs = pre ++ [Subplots 1; SmithPlot label r; SaveFig p] ++ post /\
          has_char space p = false) /\
    (forall l1 r1 l2 r2,
        In (l1, r1) d -> In (l2, r2) d ->
        replace space underscore l1 = replace space underscore l2 ->
        exists p pre1 post1 pre2 post2,
          evs = pre1 ++ [Subplots 1; SmithPlot l1 r1; SaveFig p] ++ post1 /\
          evs = pre2 ++ [Subplots 1; SmithPlot l2 r2; SaveFig p] ++ post2 /\
          dict_get (resolve w p) (fs w') = Some Image).
Proof.
  intros H. destruct (plot_smith_chart_inv _ _ _ _ _ _ H) as [_ ->].
  assert (Hsu : space <> underscore) by discriminate.
  exists (combined_chart_events w d suffix save_dir
            ++ trace_chart_events d suffix).
  split; [reflexivity |]. split.
  - intros label r Hin.
    destruct (trace_chart_events_entry d suffix label r Hin)
      as (pre & post & E).
    exists (trace_chart_name suffix label),
      (combined_chart_events w d suffix save_dir ++ pre), post.
    split; [rewrite E, <- app_assoc; reflexivity |].
    unfold trace_chart_name.
    rewrite !has_char_append, !replace_removes by exact Hsu. reflexivity.
  - intros l1 r1 l2 r2 H1 H2 E.
    destruct (trace_chart_events_entry d suffix l1 r1 H1)
      as (pre1 & post1 & E1).
    destruct (trace_chart_events_entry d suffix l2 r2 H2)
      as (pre2 & post2 & E2).
    exists (trace_chart_name suffix l1),
      (combined_chart_events w d suffix save_dir ++ pre1), post1,
      (combined_chart_events w d suffix save_dir ++ pre2), post2.
    split; [rewrite E1, <- app_assoc; reflexivity |].
    split.
    + rewrite E2, <- app_assoc.
      unfold trace_chart_name. rewrite E. reflexivity.
    + cbn [fs]. apply trace_chart_fs_image. right. now exists l1, r1.
Qed.

Lemma smith_chart_names_have_no_space_witness :
  exists evs,
    trace (snd (plot_smith_chart [("in put", 0%nat); ("in_put", 1%nat)]
                  "my LNA" true None true lab))
      = trace lab ++ evs /\
    (forall label r,
        In (label, r) [("in put", 0%nat); ("in_put", 1%nat)] ->
        exists p pre post,
          evs = pre ++ [Subplots 1; SmithPlot label r; SaveFig p] ++ post /\
          has_char space p = false) /\
    (forall l1 r1 l2 r2,
        In (l1, r1) [("in put", 0%nat); ("in_put", 1%nat)] ->
        In (l2, r2) [("in put", 0%nat); ("in_put", 1%nat)] ->
        replace space underscore l1 = replace space underscore l2 ->
        exists p pre1 post1 pre2 post2,
          evs = pre1 ++ [Subplots 1; SmithPlot l1 r1; SaveFig p] ++ post1 /\
          evs = pre2 ++ [Subplots 1; SmithPlot l2 r2; SaveFig p] ++ post2 /\
          dict_get (resolve lab p)
            (fs (snd (plot_smith_chart
                        [("in put", 0%nat); ("in_put", 1%nat)]
                        "my LNA" true None true lab)))
            = Some Image).
Proof.
  apply (smith_chart_names_have_no_space lab
           [("in put", 0%nat); ("in_put", 1%nat)] "my LNA" None
           (snd (plot_smith_chart [("in put", 0%nat); ("in_put", 1%nat)]
                   "my LNA" true None true lab))).
  apply returns_eta. reflexivity.
Defined.

(* ================================================================== *)
(** ** Edges: an empty collection, a single-point LNA response *)

(** X23.  In a process with a non-empty palette an empty collection is
    no error for the multi-trace plot and the Smith chart.  The
    multi-trace plot, when it saves no figure, creates the figure,
    warns if a save was requested without a path, and displays the
    figure with no trace on it.  The Smith chart with the save flag off
    creates and displays an empty chart; with the flag on, whenever it
    returns, it has created the save directory if it was missing, saved
    the empty combined chart there and displayed it, and the individual
    option has added nothing. *)
Theorem empty_collection_plots
  (color_cycle : list string) (angle_deg : C -> R) (w : world)
  (scale : string) (save_plot show_phase : bool)
  (save_path : option string) :
  color_cycle <> [] ->
  (save_plot = false \/ save_path = None ->
   exists w',
     plot_s11_reflect color_cycle angle_deg [] scale save_plot show_phase
       save_path w = (inr tt, w') /\
     heap w' = heap w /\
     fs w' = fs w /\
     trace w'
       = trace w
         ++ Subplots (if show_phase then 2 else 1)
            :: (if save_plot then [ConsolePrint no_path_msg] else [])
         ++ [ShowFigure]) /\
  (forall suffix save_dir individual,
      plot_smith_chart [] suffix false save_dir individual w
        = (inr tt, add_events w [Subplots 1; ShowFigure])) /\
  (forall suffix save_dir individual w',
      plot_smith_chart [] suffix true save_dir individual w = (inr tt, w') ->
      heap w' = heap w /\
      trace w'
        = trace w
          ++ Subplots 1
             :: (if dir_missing w (chart_dir w save_dir)
                 then [MakeDirs (chart_dir w save_dir)] else [])
          ++ [SaveFig (pjoin (chart_dir w save_dir)
                         (replace space underscore suffix
                            ++ "_smith_chart.png")%string);
              ShowFigure]).
Proof.
  intros Hcc. split; [| split].
  - intros Hsave.
    unfold plot_s11_reflect, draw_s11_reflect, framed.
    run_with ltac:(instantiate (1 := add_events w
                                       [Subplots (if show_phase then 2%nat
                                                  else 1%nat)]);
                   instantiate (1 := tt);
                   run_with ltac:(apply subplots_run; exact Hcc);
                   reflexivity).
    destruct save_plot; [destruct save_path as [p|] |].
    + destruct Hsave; discriminate.
    + eexists; split; [reflexivity |]. repeat split.
      simpl. rewrite <- !app_assoc. reflexivity.
    + eexists; split; [reflexivity |]. repeat split.
      simpl. rewrite <- !app_assoc. reflexivity.
  - intros suffix save_dir individual.
    destruct individual; unfold plot_smith_chart, bind, add_events; simpl;
      rewrite <- ?app_assoc; reflexivity.
  - intros suffix save_dir individual w' H.
    destruct (plot_smith_chart_inv _ _ _ _ _ _ H) as [_ ->].
    split; [reflexivity |].
    cbn [trace]. unfold combined_chart_events, combined_chart_name; cbv zeta.
    destruct individual; simpl; rewrite ?app_nil_r; reflexivity.
Qed.

Lemma empty_collection_plots_witness :
  exists w',
    plot_s11_reflect ["C0"; "C1"] re [] "log" true true None lab
      = (inr tt, w') /\
    heap w' = heap lab /\
    fs w' = fs lab /\
    trace w'
      = trace lab ++ Subplots 2 :: [ConsolePrint no_path_msg] ++ [ShowFigure].
Proof.
  apply (proj1 (empty_collection_plots ["C0"; "C1"] re lab "log" true true
                  None ltac:(discriminate))).
  now right.
Defined.

Lemma broadcast_stretch {A B X} (op : A -> B -> X) (xs : list A) (y : B) :
  broadcast op xs [y] = Some (map (fun x => op x y) xs).
Proof.
  unfold broadcast. destruct xs as [|x [|x' xs]]; reflexivity.
Qed.

(** X24.  An LNA response with a single point is stretched over the
    cable's grid: every cable point is combined with that one value,
    and the result is a response on the cable's grid with as many
    values as the cable has. *)
Theorem LNA_total_reflection_single_point
  (w : world) (rho_cable_ntwk rho_LNA_ntwk : ref) (cable lna : Network)
  (y : C) :
  nth_error (heap w) rho_cable_ntwk = Some cable ->
  nth_error (heap w) rho_LNA_ntwk = Some lna ->
  s lna = [y] ->
  LNA_total_reflection rho_cable_ntwk rho_LNA_ntwk w
    = (inr (length (heap w)),
       mkWorld
         (heap w
            ++ [mkNetwork (f cable)
                  (map (fun z => Cdiv z (Csub C1 (Cmul z y))) (s cable))])
         (fs w) (cwd w) (trace w)).
Proof.
  intros Hc Hl Hy. unfold LNA_total_reflection, bind.
  rewrite (deref_some _ _ _ Hc), (deref_some _ _ _ Hl), Hy.
  rewrite broadcast_stretch. cbn [lift_opt ret].
  rewrite broadcast_same by (now rewrite !length_map).
  rewrite map_map, zip_with_map. cbn [lift_opt ret new_Network].
  rewrite (map_ext (fun a => Cdiv (Cmul a C1) (Csub C1 (Cmul a y)))
             (fun z => Cdiv z (Csub C1 (Cmul z y))))
    by (intros z; now rewrite Cmul_1_r).
  reflexivity.
Qed.

Lemma LNA_total_reflection_single_point_witness :
  LNA_total_reflection 0%nat 1%nat spot
    = (inr (length (heap spot)),
       mkWorld
         (heap spot
            ++ [mkNetwork (f cable_data)
                  (map (fun z => Cdiv z (Csub C1 (Cmul z (mkC (1 / 3) 0))))
                     (s cable_data))])
         (fs spot) (cwd spot) (trace spot)).
Proof.
  apply (LNA_total_reflection_single_point spot 0%nat 1%nat cable_data
           point_data (mkC (1 / 3) 0)); reflexivity.
Defined.
